(** * A shallow embedding of the turn-based game engine [lib/game/_game.py]

    The engine drives rounds of an abstract game between agents.  The
    embedding follows the Python source method by method:

    - the [GameState] contract is a type class (the source's abstract
      properties [is_terminal], [actions] and method [act]);
    - agents are mutable objects: they live in the [World], which also holds
      the shared list [games], the counters of the external oracles (wall
      clock, keyboard, terminal prompt) and the trace of external calls;
    - methods are computations in a state-and-exception monad [M]; loops
      that Python can run forever take fuel and answer [OutOfFuel];
    - a function whose body contains [yield from] is a generator function:
      calling it builds a [Generator] holding the suspended body. *)

From Stdlib Require Import ZArith QArith List String Bool.
From stdpp Require Import base tactics option list strings finite gmap.
Import ListNotations.

Open Scope string_scope.
Open Scope Z_scope.
Open Scope list_scope.

(** ** Python values that the engine inspects *)

(** Keys and events of [pygame.event]. *)
Inductive Key := K_SPACE | K_y | K_n | K_other.
Inductive PyEvent := KEYDOWN (key : Key) | QUIT | OTHER.

(** The exceptions that can arise in the modelled code. *)
Inductive Exn :=
| NotImplementedError
| ZeroDivisionError
| IndexError
| AttributeError (attr : string)
| SystemExit
| AgentError (msg : string).

(** The value given as [play_again]: [False]/[None]/[0] (never), the string
    ['query'], or an integer count. *)
Inductive PyVal :=
| PyNone
| PyBool (b : bool)
| PyInt (n : Z)
| PyStr (s : string).

(** [bool(v)]. *)
Definition py_truth (v : PyVal) : bool :=
  match v with
  | PyNone => false
  | PyBool b => b
  | PyInt n => negb (n =? 0)
  | PyStr s => negb (String.eqb s "")
  end.

(** [isinstance(v, int)]; [bool] is a subclass of [int]. *)
Definition py_isinstance_int (v : PyVal) : bool :=
  match v with
  | PyBool _ | PyInt _ => true
  | _ => false
  end.

(** [v == 'query']. *)
Definition py_eq_query (v : PyVal) : bool :=
  match v with
  | PyStr s => String.eqb s "query"
  | _ => false
  end.

(** The integer an [int] instance stands for ([True] is 1). *)
Definition py_int_value (v : PyVal) : Z :=
  match v with
  | PyInt n => n
  | PyBool true => 1
  | _ => 0
  end.

(** A Python number: an [int], or the [float] that true division [/] gives
    (halves of small integers, kept exact as rationals). *)
Inductive PyNum :=
| PyI (n : Z)
| PyF (q : Q).

(** The display surface made by [pygame.display.set_mode]. *)
Inductive Screen := DisplayScreen (width height : Z).

(** The [asyncio.Lock] stored in [self._screen_lock]. *)
Inductive Lock := AsyncioLock.

(** ** The GameState contract *)

Class GameState (State Action : Type) := {
  state_eq_dec :: EqDecision State;      (* PRecord equality is by value *)
  action_eq_dec :: EqDecision Action;
  is_terminal : State -> bool;
  actions : State -> list Action;
  act : State -> Action -> option State; (* [None] is the rejection *)
  truthy : State -> bool;                (* bool(state); a record without fields is falsy *)
}.

(** What [_action_is_valid] prints. *)
Inductive Output (Action : Type) :=
| ErrTerminal
| ErrIllegal (action : Action) (allowed : list Action).
Arguments ErrTerminal {Action}.
Arguments ErrIllegal {Action} action allowed.

(** [GameState._action_is_valid]: the result and the text printed. *)
Definition _action_is_valid `{GameState State Action}
    (self : State) (action : Action) : option State * list (Output Action) :=
  if is_terminal self then (None, [ErrTerminal])
  else if negb (bool_decide (action ∈ actions self))
       then (None, [ErrIllegal action (actions self)])
       else (Some self, []).

(** ** Agents *)

Module Agent.
(** An agent object: its current memory and its two methods.  A method
    either raises or returns (with the memory it leaves behind). *)
Record t (State Action Mem : Type) := Build {
  memory : Mem;
  decide : Mem -> State -> Exn + (Action * Mem);
  learn : Mem -> list State -> nat -> Exn + Mem;
}.
Arguments Build {State Action Mem}.
Arguments memory {State Action Mem}.
Arguments decide {State Action Mem}.
Arguments learn {State Action Mem}.

Definition set_memory {State Action Mem} (a : t State Action Mem) (m : Mem) :=
  Build m (decide a) (learn a).

(** The base class: [decide] raises [NotImplementedError], [learn] is
    [pass]. *)
Definition base {State Action Mem} (m : Mem) : t State Action Mem :=
  Build m (fun _ _ => inl NotImplementedError) (fun m _ _ => inr m).
End Agent.

(** How a computation ends: with a value, with an exception, or still
    running when the fuel is spent. *)
Inductive Outcome (A : Type) :=
| Done (a : A)
| Raised (e : Exn)
| OutOfFuel.
Arguments Done {A} a.
Arguments Raised {A} e.
Arguments OutOfFuel {A}.

(** ** External calls, the world and the monad *)

Section Engine.
Context {State Action Mem : Type} `{GameState State Action}.

(** What [state.draw()], [font.render] produce. *)
Inductive Surface :=
| Picture (s : State)
| Label (text : string).

(** The calls that leave the interpreter, in program order. *)
Inductive Event :=
| LogInfo (msg : string)                       (* logging.info(msg) *)
| Decide (i : nat) (s : State)                 (* agents[i].decide(s) *)
| Learn (player_id : nat) (states : list State) (* agent.learn(states, player_id) *)
| TimeWait (ms : Z)                            (* pygame.time.wait(ms) *)
| EventClear                                   (* pygame.event.clear() *)
| EventWait (e : PyEvent)                      (* pygame.event.wait() returned e *)
| EventGet (es : list PyEvent)                 (* pygame.event.get() returned es *)
| PygameInit
| SetMode (width height : Z)
| PygameQuit
| StateDraw (s : State)                        (* state.draw() *)
| LockAcquire                                  (* entering [with (yield from lock)] *)
| LockRelease                                  (* leaving it *)
| ScreenBlit (surf : Surface) (x y : PyNum)    (* self.screen.blit(surf, (x, y)) *)
| DrawRect (x y : PyNum) (w h : Z)             (* pygame.draw.rect(self.screen, ..) *)
| FontRender (text : string)
| DisplayUpdate                                (* pygame.display.update() *)
| ClockTick (fps : Z)
| AskYN (prompt : string) (answer : bool).     (* cli.ask_yn(prompt) returned answer *)

(** The outside world as the engine meets it: the k-th reading of
    [int(round(time.time() * 1000))], the k-th event delivered by
    [pygame.event.wait()], the k-th batch of [pygame.event.get()], the k-th
    answer typed at [cli.ask_yn], and whether the game thread is alive at the
    k-th poll. *)
Record Env := {
  clock : nat -> Z;
  keyboard : nat -> PyEvent;
  pending : nat -> list PyEvent;
  answers : nat -> bool;
  thread_alive : nat -> bool;
}.

Variable env : Env.

Definition Trajectory := list State.

Record World := {
  agents : list (Agent.t State Action Mem);  (* the objects of self.agents *)
  games : list Trajectory;                   (* the list object shared by run and _run_game *)
  ticks : nat;                               (* clock readings taken *)
  polled : nat;                              (* events taken from the queue *)
  asked : nat;                               (* prompts answered *)
  trace : list Event;
}.

Definition M (A : Type) : Type := World -> World * Outcome A.

Definition ret {A} (a : A) : M A := fun w => (w, Done a).

Definition bind {A B} (m : M A) (k : A -> M B) : M B :=
  fun w =>
    match m w with
    | (w1, Done a) => k a w1
    | (w1, Raised e) => (w1, Raised e)
    | (w1, OutOfFuel) => (w1, OutOfFuel)
    end.

Definition raise {A} (e : Exn) : M A := fun w => (w, Raised e).

Definition out_of_fuel {A} : M A := fun w => (w, OutOfFuel).

Notation "x <- m ;; k" := (bind m (fun x => k))
  (at level 100, m at next level, right associativity).
Notation "m ;;; k" := (bind m (fun _ => k))
  (at level 100, right associativity).

Definition emit (e : Event) : M unit :=
  fun w => ({| agents := agents w; games := games w; ticks := ticks w;
               polled := polled w; asked := asked w;
               trace := trace w ++ [e] |}, Done tt).

Definition when (b : bool) (m : M unit) : M unit := if b then m else ret tt.

(** [int(round(time.time() * 1000))]. *)
Definition now_ms : M Z :=
  fun w => ({| agents := agents w; games := games w; ticks := S (ticks w);
               polled := polled w; asked := asked w; trace := trace w |},
            Done (clock env (ticks w))).

(** [pygame.event.wait()]. *)
Definition event_wait : M PyEvent :=
  fun w => let e := keyboard env (polled w) in
           ({| agents := agents w; games := games w; ticks := ticks w;
               polled := S (polled w); asked := asked w;
               trace := trace w ++ [EventWait e] |}, Done e).

(** [pygame.event.get()]. *)
Definition event_get : M (list PyEvent) :=
  fun w => let es := pending env (polled w) in
           ({| agents := agents w; games := games w; ticks := ticks w;
               polled := S (polled w); asked := asked w;
               trace := trace w ++ [EventGet es] |}, Done es).

(** [cli.ask_yn(prompt)]. *)
Definition ask_yn (prompt : string) : M bool :=
  fun w => let b := answers env (asked w) in
           ({| agents := agents w; games := games w; ticks := ticks w;
               polled := polled w; asked := S (asked w);
               trace := trace w ++ [AskYN prompt b] |}, Done b).

(** [games += [t]] on the shared list. *)
Definition append_game (t : Trajectory) : M unit :=
  fun w => ({| agents := agents w; games := games w ++ [t]; ticks := ticks w;
               polled := polled w; asked := asked w; trace := trace w |},
            Done tt).

(** [games = []] in [run]: a fresh list object. *)
Definition new_games : M unit :=
  fun w => ({| agents := agents w; games := []; ticks := ticks w;
               polled := polled w; asked := asked w; trace := trace w |},
            Done tt).

Definition get_games : M (list Trajectory) := fun w => (w, Done (games w)).

Definition len_agents : M nat := fun w => (w, Done (length (agents w))).

Definition set_agent (i : nat) (a : Agent.t State Action Mem) : M unit :=
  fun w => ({| agents := <[i := a]> (agents w); games := games w;
               ticks := ticks w; polled := polled w; asked := asked w;
               trace := trace w |}, Done tt).

(** [self.agents[i]]. *)
Definition get_agent (i : nat) : M (Agent.t State Action Mem) :=
  fun w => match agents w !! i with
           | Some a => (w, Done a)
           | None => (w, Raised IndexError)
           end.

(** [agent.decide(state)] on the i-th agent object. *)
Definition call_decide (i : nat) (agent : Agent.t State Action Mem)
    (state : State) : M Action :=
  emit (Decide i state) ;;;
  match Agent.decide agent (Agent.memory agent) state with
  | inl e => raise e
  | inr (action, m) => set_agent i (Agent.set_memory agent m) ;;; ret action
  end.

(** [agent.learn(states, player_id)] on the object at index [player_id]. *)
Definition call_learn (player_id : nat) (agent : Agent.t State Action Mem)
    (states : list State) : M unit :=
  emit (Learn player_id states) ;;;
  match Agent.learn agent (Agent.memory agent) states player_id with
  | inl e => raise e
  | inr m => set_agent player_id (Agent.set_memory agent m)
  end.

(** ** The Game object *)

Record GameType := {
  init : list (Agent.t State Action Mem) -> State;
}.

(** The attributes of a [Game] instance.  [self_screen] is the attribute
    [self.screen]: [None] as long as nothing has assigned it. *)
Record Game := {
  game_type : GameType;
  display : bool;
  _screen_lock : Lock;
  self_screen : option Screen;
}.

(** [Game.__init__(game_type, agents, display)]: the object; the agent list
    goes to the world. *)
Definition Game_init (gt : GameType) (display : bool) : Game :=
  {| game_type := gt; display := display; _screen_lock := AsyncioLock;
     self_screen := None |}.

Definition initial_world (ags : list (Agent.t State Action Mem)) : World :=
  {| agents := ags; games := []; ticks := 0%nat; polled := 0%nat;
     asked := 0%nat; trace := [] |}.

(** Reading [self.screen]. *)
Definition read_screen (self : Game) : M Screen :=
  match self_screen self with
  | Some scr => ret scr
  | None => raise (AttributeError "screen")
  end.

(** ** Generator functions *)

(** A generator object that has not been advanced: the suspended body. *)
Inductive Generator (A : Type) :=
| Unstarted (body : M A).
Arguments Unstarted {A} body.

(** Calling a function whose body contains [yield] or [yield from] runs
    none of the body. *)
Definition call_generator_function {A} (body : M A) : M (Generator A) :=
  ret (Unstarted body).

(** Driving a generator to its end (the bodies below never suspend: the lock
    is free whenever they reach it). *)
Definition iterate {A} (g : Generator A) : M A :=
  match g with Unstarted body => body end.

(** [bool(g)]: a generator object is truthy. *)
Definition generator_truth {A} (g : Generator A) : bool := true.

(** [with (yield from self._screen_lock): body]; the lock is released on
    every exit from the block. *)
Definition with_screen_lock {A} (body : M A) : M A :=
  fun w => let (w1, r) := body (fst (emit LockAcquire w)) in
           (fst (emit LockRelease w1), r).

(** Body of [Game._draw_state]. *)
Definition _draw_state_body (self : Game) (state : State) : M unit :=
  if display self then
    emit (StateDraw state) ;;;
    let surf := Picture state in
    with_screen_lock
      (_ <- read_screen self ;; emit (ScreenBlit surf (PyI 0) (PyI 0)))
  else ret tt.

Definition _draw_state (self : Game) (state : State) : M (Generator unit) :=
  call_generator_function (_draw_state_body self state).

(** The final loop of [_play_again]: wait for [y] or [n]. *)
Fixpoint wait_yn (fuel : nat) : M bool :=
  match fuel with
  | O => out_of_fuel
  | S n =>
      emit EventClear ;;;
      e <- event_wait ;;
      match e with
      | KEYDOWN K_y => ret true
      | KEYDOWN K_n => ret false
      | _ => wait_yn n
      end
  end.

(** Body of [Game._play_again]; [get_width()/2] and [get_height()/2] are
    true divisions, so the corner of the window is a pair of floats. *)
Definition _play_again_body (fuel : nat) (self : Game) : M bool :=
  if negb (display self) then ask_yn "Play again?"
  else
    emit (FontRender "play again? (y/n)") ;;;
    scr <- read_screen self ;;
    let '(DisplayScreen width height) := scr in
    let x := (inject_Z width / 2 - 200)%Q in
    let y := (inject_Z height / 2 - 30)%Q in
    emit (DrawRect (PyF (x - 4)%Q) (PyF (y - 4)%Q) (400 + 8) (60 + 8)) ;;;
    emit (DrawRect (PyF x) (PyF y) 400 60) ;;;
    with_screen_lock
      (_ <- read_screen self ;;
       emit (ScreenBlit (Label "play again? (y/n)")
               (PyF (x + 18)%Q) (PyF (y + 7)%Q))) ;;;
    wait_yn fuel.

Definition _play_again (fuel : nat) (self : Game) : M (Generator bool) :=
  call_generator_function (_play_again_body fuel self).

Definition is_quit (e : PyEvent) : bool :=
  match e with QUIT => true | _ => false end.

(** [game_thread.isAlive()], polled once per refresh. *)
Definition is_alive : M bool :=
  fun w => (w, Done (thread_alive env (polled w))).

(** The refresh loop of [_run_display]. *)
Fixpoint display_loop (fuel : nat) : M unit :=
  match fuel with
  | O => out_of_fuel
  | S n =>
      alive <- is_alive ;;
      if alive then
        with_screen_lock (emit DisplayUpdate) ;;;
        emit (ClockTick 15) ;;;
        es <- event_get ;;
        (if existsb is_quit es then emit PygameQuit ;;; raise SystemExit
         else ret tt) ;;;
        display_loop n
      else ret tt
  end.

(** Body of [Game._run_display]. *)
Definition _run_display_body (fuel : nat) (self : Game)
    (screen : option Screen) : M unit :=
  display_loop fuel ;;; emit PygameQuit.

Definition _run_display (fuel : nat) (self : Game) (screen : option Screen)
    : M (Generator unit) :=
  call_generator_function (_run_display_body fuel self screen).

(** ** The round driver *)

(** The [if not screen / elif speed == 2 / elif speed == 1 / else] chain of
    [_run_round]: (turn_wait, round_wait). *)
Definition wait_budgets (screen : option Screen) (speed : Z) : Z * Z :=
  match screen with
  | None => (0, 0)
  | Some _ =>
      if speed =? 2 then (0, 10)
      else if speed =? 1 then (50, 100)
      else (500, 1000)
  end.

(** [not new_state]. *)
Definition not_state (new_state : option State) : bool :=
  match new_state with
  | None => true
  | Some s => negb (truthy s)
  end.

(** [i = (i + 1) % len(self.agents)]. *)
Definition next_index (i : Z) : M Z :=
  n <- len_agents ;;
  if (n =? 0)%nat then raise ZeroDivisionError
  else ret ((i + 1) mod Z.of_nat n).

(** [while new_state == None: ...]: the new state and the [start_t] of the
    attempt that produced it. *)
Fixpoint decide_loop (fuel : nat) (i : nat) (state : State) : M (State * Z) :=
  match fuel with
  | O => out_of_fuel
  | S n =>
      start_t <- now_ms ;;
      agent <- get_agent i ;;
      action <- call_decide i agent state ;;
      let new_state := act state action in
      when (not_state new_state) (emit (LogInfo "Invalid action performed!")) ;;;
      match new_state with
      | None => decide_loop n i state
      | Some s => ret (s, start_t)
      end
  end.

(** The [pause_on_turn] loop: wait for the space bar. *)
Fixpoint pause_loop (fuel : nat) : M unit :=
  match fuel with
  | O => out_of_fuel
  | S n =>
      emit EventClear ;;;
      e <- event_wait ;;
      match e with
      | KEYDOWN K_SPACE => ret tt
      | _ => pause_loop n
      end
  end.

(** [while not state.is_terminal: ...]. *)
Fixpoint round_loop (fuel : nat) (self : Game) (turn_wait : Z)
    (pause_on_turn : bool) (i : Z) (state : State) (states : list State)
    : M (list State) :=
  match fuel with
  | O => out_of_fuel
  | S n =>
      if is_terminal state then ret states
      else
        i <- next_index i ;;
        r <- decide_loop n (Z.to_nat i) state ;;
        let new_state := fst r in
        let start_t := snd r in
        _draw_state self new_state ;;;
        if bool_decide (new_state ∈ states) then
          emit (LogInfo "State has been repeated! Therefore, game is over.") ;;;
          ret states
        else
          let states := states ++ [new_state] in
          end_t <- now_ms ;;
          let wait_time := turn_wait - (end_t - start_t) in
          when pause_on_turn (pause_loop n) ;;;
          when ((0 <? wait_time) && display self) (emit (TimeWait wait_time)) ;;;
          round_loop n self turn_wait pause_on_turn i new_state states
  end.

(** [for player_id, agent in enumerate(self.agents): agent.learn(..)], from
    index [player_id] on, [count] agents left. *)
Fixpoint learn_from (player_id count : nat) (states : list State) : M unit :=
  match count with
  | O => ret tt
  | S c =>
      agent <- get_agent player_id ;;
      call_learn player_id agent states ;;;
      learn_from (S player_id) c states
  end.

Definition learn_all (states : list State) : M unit :=
  n <- len_agents ;;
  learn_from 0 n states.

Definition get_agents : M (list (Agent.t State Action Mem)) :=
  fun w => (w, Done (agents w)).

(** [Game._run_round(speed, pause_on_turn, screen=None)]. *)
Definition _run_round (fuel : nat) (self : Game) (speed : Z)
    (pause_on_turn : bool) (screen : option Screen) : M (list State) :=
  ags <- get_agents ;;
  let state := init (game_type self) ags in
  _draw_state self state ;;;
  let turn_wait := fst (wait_budgets screen speed) in
  let round_wait := snd (wait_budgets screen speed) in
  states <- round_loop fuel self turn_wait pause_on_turn (-1) state [state] ;;
  learn_all states ;;;
  emit (TimeWait round_wait) ;;;
  ret states.

(** ** The session driver *)

(** The condition of the [break] in [_run_game], evaluated left to right
    with Python's short circuits. *)
Definition break_condition (fuel : nat) (self : Game) (play_again : PyVal)
    : M bool :=
  if negb (py_truth play_again) then ret true
  else
    b <- (if py_eq_query play_again
          then g <- _play_again fuel self ;; ret (negb (generator_truth g))
          else ret false) ;;
    if b : bool then ret true
    else if py_isinstance_int play_again
         then gs <- get_games ;;
              ret (Z.of_nat (length gs) <? py_int_value play_again)
         else ret false.

(** [Game._run_game(games, screen, play_again, speed, pause_on_turn)]; the
    call of [_run_round] passes no screen. *)
Fixpoint _run_game (fuel : nat) (self : Game) (screen : option Screen)
    (play_again : PyVal) (speed : Z) (pause_on_turn : bool) : M unit :=
  match fuel with
  | O => out_of_fuel
  | S n =>
      t <- _run_round n self speed pause_on_turn None ;;
      append_game t ;;;
      stop <- break_condition n self play_again ;;
      if stop : bool then ret tt
      else _run_game n self screen play_again speed pause_on_turn
  end.

(** Starting [m] as the target of a thread without waiting for it: the
    caller goes on while the thread runs, here from the point the thread has
    reached when its fuel is spent (or where it ended); nothing of the
    thread's outcome reaches the caller. *)
Definition start_thread (m : M unit) : M unit :=
  fun w => (fst (m w), Done tt).

(** Running [m] as the target of a thread and waiting for it with [join]:
    an exception ends the thread, not the caller. *)
Definition in_thread (m : M unit) : M unit :=
  fun w => match m w with
           | (w1, OutOfFuel) => (w1, OutOfFuel)
           | (w1, _) => (w1, Done tt)
           end.

(** [Game.run(display, play_again, speed, pause_on_turn)].  Headless, the
    game thread is joined and the value is the content of the shared list
    once the thread has stopped.  With display, the call of [_run_display]
    only builds a generator, so [run] returns the shared list at once, with
    what the game thread has put in it by then. *)
Definition run (fuel : nat) (self : Game) (display : bool)
    (play_again : PyVal) (speed : Z) (pause_on_turn : bool)
    : M (list Trajectory) :=
  screen <- (if display
             then emit PygameInit ;;; emit (SetMode 672 480) ;;;
                  ret (Some (DisplayScreen 672 480))
             else ret None) ;;
  new_games ;;;
  (if display
   then start_thread
          (_run_game fuel self screen play_again speed pause_on_turn) ;;;
        _run_display fuel self screen ;;; ret tt
   else in_thread
          (_run_game fuel self screen play_again speed pause_on_turn)) ;;;
  get_games.

End Engine.

Arguments Unstarted {State Action Mem A} body.

Notation "x <- m ;; k" := (bind m (fun x => k))
  (at level 100, m at next level, right associativity).
Notation "m ;;; k" := (bind m (fun _ => k))
  (at level 100, right associativity).

(** ** Two small games and scripted agents, used to run the engine *)

Module Toy.

Inductive Move := Go | Bad.

#[export] Instance Move_eq_dec : EqDecision Move.
Proof. solve_decision. Defined.

(** A game that never ends by its rules: [Ping -> Pong -> Ping -> ...]. *)
Inductive Court := Ping | Pong.

#[export] Instance Court_eq_dec : EqDecision Court.
Proof. solve_decision. Defined.

#[export] Instance PingPong : GameState Court Move := {|
  is_terminal := fun _ => false;
  actions := fun _ => [Go];
  act := fun s a =>
    match a, s with
    | Go, Ping => Some Pong
    | Go, Pong => Some Ping
    | Bad, _ => None
    end;
  truthy := fun _ => true;
|}.

(** A game that ends by its rules: two steps down to the ground, which is
    terminal and has no action. *)
Inductive Stair := Top | Middle | Ground.

#[export] Instance Stair_eq_dec : EqDecision Stair.
Proof. solve_decision. Defined.

#[export] Instance Descent : GameState Stair Move := {|
  is_terminal := fun s => match s with Ground => true | _ => false end;
  actions := fun s => match s with Ground => [] | _ => [Go] end;
  act := fun s a =>
    match a, s with
    | Go, Top => Some Middle
    | Go, Middle => Some Ground
    | _, _ => None
    end;
  truthy := fun _ => true;
|}.

#[export] Instance Stair_finite : Finite Stair.
Proof.
  refine {| enum := [Top; Middle; Ground] |}.
  - apply (bool_decide_unpack _). by vm_compute.
  - intros [| |]; apply (bool_decide_unpack _); by vm_compute.
Defined.

(** A game that counts down to zero. *)
#[export] Instance Countdown : GameState nat Move := {|
  is_terminal := fun n => (n =? 0)%nat;
  actions := fun n => if (n =? 0)%nat then [] else [Go];
  act := fun n a =>
    match a, n with
    | Go, S m => Some m
    | _, _ => None
    end;
  truthy := fun _ => true;
|}.

(** An agent that plays the moves of its script, then [Go] for ever; its
    [learn] is the inherited no-op. *)
Definition scripted {State} (script : list Move) : Agent.t State Move (list Move) :=
  Agent.Build script
    (fun m _ => match m with
                | [] => inr (Go, [])
                | a :: rest => inr (a, rest)
                end)
    (fun m _ _ => inr m).

(** The same agent with a [learn] that raises. *)
Definition faulty_learner {State} (script : list Move)
    : Agent.t State Move (list Move) :=
  Agent.Build script
    (Agent.decide (scripted script))
    (fun _ _ _ => inl (AgentError "learn failed")).

(** A clock that advances 7 ms per reading, a user who hits space, then
    [n]; a terminal user who answers no. *)
Definition env : Env := {|
  clock := fun k => 7 * Z.of_nat k;
  keyboard := fun k => if Nat.even k then KEYDOWN K_SPACE else KEYDOWN K_n;
  pending := fun _ => [];
  answers := fun _ => false;
  thread_alive := fun _ => false;
|}.

(** The game thread is alive for two refreshes; nothing is pending. *)
Definition live_env : Env := {|
  clock := fun k => 7 * Z.of_nat k;
  keyboard := fun k => if (k <? 2)%nat then OTHER else KEYDOWN K_y;
  pending := fun _ => [OTHER];
  answers := fun _ => true;
  thread_alive := fun k => (k <? 2)%nat;
|}.

(** The game thread stays alive; the window is closed at the second
    refresh. *)
Definition quit_env : Env := {|
  clock := fun k => 7 * Z.of_nat k;
  keyboard := fun _ => OTHER;
  pending := fun k => if (k =? 1)%nat then [OTHER; QUIT] else [];
  answers := fun _ => true;
  thread_alive := fun _ => true;
|}.

Definition fair_players {State} : list (Agent.t State Move (list Move)) :=
  [scripted []; scripted []].

Definition clumsy_players {State} : list (Agent.t State Move (list Move)) :=
  [scripted [Bad]; scripted []].

Definition faulty_players {State} : list (Agent.t State Move (list Move)) :=
  [faulty_learner []; scripted []].

Definition base_players {State} : list (Agent.t State Move (list Move)) :=
  [Agent.base []; scripted []].

#[export] Instance Court_finite : Finite Court.
Proof.
  refine {| enum := [Ping; Pong] |}.
  - apply NoDup_cons. split; [|apply NoDup_singleton].
    intros Hin. apply list_elem_of_singleton in Hin. discriminate Hin.
  - intros [|]; [apply list_elem_of_here|].
    apply list_elem_of_further, list_elem_of_here.
Defined.

(** A game object whose [screen] attribute has been assigned. *)
Definition court_with_screen : Game (State := Court) (Action := Move)
                                    (Mem := list Move) :=
  {| game_type := {| init := fun _ => Ping |}; display := true;
     _screen_lock := AsyncioLock;
     self_screen := Some (DisplayScreen 672 480) |}.

(** A world in which one keyboard event has already been taken. *)
Definition late_world : World (State := Court) (Action := Move)
                              (Mem := list Move) :=
  {| agents := fair_players; games := []; ticks := 0%nat; polled := 1%nat;
     asked := 0%nat; trace := [] |}.

Definition stair_type : GameType (State := Stair) (Action := Move)
                                 (Mem := list Move) :=
  {| init := fun _ => Top |}.

Definition court_type : GameType (State := Court) (Action := Move) (Mem := list Move) :=
  {| init := fun _ => Ping |}.

Definition countdown_type (start : nat)
    : GameType (State := nat) (Action := Move) (Mem := list Move) :=
  {| init := fun _ => start |}.

End Toy.

Import Toy.

(** ** Concrete games' [act] and the objects behind states *)

Section ConcreteAct.
Context {State Action : Type} `{GameState State Action}.

(** The successor a concrete game computes for a legal move. *)
Variable step : State -> Action -> State.

(** Modelled from the spec: the [act] of a concrete game, which is absent
    from the sources (the base method raises [NotImplementedError]).  It
    validates [action] with [_action_is_valid] and, on success, builds the
    successor; on violation it returns the rejection. *)
Definition act_guarded (self : State) (action : Action) : option State :=
  match fst (_action_is_valid self action) with
  | None => None
  | Some s => Some (step s action)
  end.

(** Modelled from the spec: states are persistent records, so a successor is
    a new object and no existing object is written.  The heap maps object
    identities to record values; [act_object] is [act] on the object at
    [self]. *)
Definition act_object (heap : gmap positive State) (self : positive)
    (action : Action) : gmap positive State * option positive :=
  match heap !! self with
  | None => (heap, None)
  | Some s =>
      match act_guarded s action with
      | None => (heap, None)
      | Some s' =>
          let new := fresh (dom heap) in
          (<[new := s']> heap, Some new)
      end
  end.

End ConcreteAct.

(** ** Vocabulary for the properties *)

Section Vocabulary.
Context {State Action Mem : Type} `{GameState State Action}.

Abbreviation World := (World (State := State) (Action := Action) (Mem := Mem)).
Abbreviation M := (M (State := State) (Action := Action) (Mem := Mem)).
Abbreviation Event := (Event (State := State)).

(** The external calls the drivers make themselves: logging, agent calls,
    timed waits and the keyboard of [pause_on_turn].  Everything else
    (drawing, the lock, the screen, fonts, the prompts) belongs to the
    generator bodies. *)
Definition driver_event (e : Event) : bool :=
  match e with
  | LogInfo _ | Decide _ _ | Learn _ _ | TimeWait _
  | EventClear | EventWait _ => true
  | _ => false
  end.

(** From [w] to [w']: no prompt was answered and only driver events were
    added to the trace. *)
Definition quiet_step (w w' : World) : Prop :=
  asked w' = asked w
  /\ exists evs, trace w' = trace w ++ evs
                /\ Forall (fun e => driver_event e = true) evs.

(** The same, and the shared list [games] was not touched. *)
Definition round_step (w w' : World) : Prop :=
  games w' = games w /\ quiet_step w w'.

(** Two worlds that differ at most in their traces. *)
Definition same_but_trace (w1 w2 : World) : Prop :=
  agents w1 = agents w2 /\ games w1 = games w2 /\ ticks w1 = ticks w2
  /\ polled w1 = polled w2 /\ asked w1 = asked w2.

(** Every world reached by [m] is related to the one it started from. *)
Definition steps (R : World -> World -> Prop)
    {A} (m : M A) : Prop :=
  forall w, R w (fst (m w)).

(** [m1] and [m2] end alike, up to the trace. *)
Definition alike {A} (m1 m2 : M A) : Prop :=
  forall w1 w2, same_but_trace w1 w2 ->
    same_but_trace (fst (m1 w1)) (fst (m2 w2)) /\ snd (m1 w1) = snd (m2 w2).

(** [m] returns [tt] and changes nothing but the trace. *)
Definition silent (m : M unit) : Prop :=
  forall w, snd (m w) = Done tt /\ same_but_trace (fst (m w)) w.

(** An agent that keeps to the Agent contract: from its current memory on,
    [decide] returns one of the actions of the non-terminal state it is
    shown and [learn] returns ([Inv] is what its memory satisfies along the
    way).  Nothing is asked of [decide] on terminal states, which the
    driver never shows to an agent. *)
Definition reliable (ag : Agent.t State Action Mem) : Prop :=
  exists Inv : Mem -> Prop,
    Inv (Agent.memory ag)
    /\ (forall m s, Inv m -> is_terminal s = false ->
          exists a m', Agent.decide ag m s = inr (a, m')
                       /\ a ∈ actions s /\ Inv m')
    /\ (forall m ss pid, Inv m ->
          exists m', Agent.learn ag m ss pid = inr m' /\ Inv m').

(** The world after a rejected attempt of agent [i] on [state]: the clock
    was read, the agent decided (leaving memory [m]), the diagnostic was
    logged. *)
Definition after_rejection (w : World) (i : nat)
    (agent : Agent.t State Action Mem) (m : Mem) (state : State) : World :=
  {| agents := <[i := Agent.set_memory agent m]> (agents w);
     games := games w; ticks := S (ticks w); polled := polled w;
     asked := asked w;
     trace := (trace w ++ [Decide i state])
              ++ [LogInfo "Invalid action performed!"] |}.

(** The [learn] calls of one round, in order. *)
Definition learn_calls (from count : nat) (states : list State)
    : list (Event) :=
  map (fun pid => Learn pid states) (seq from count).

(** In world [w], the [learn] of the agent at index [pid] returns, or
    raises [e], when called with [states]. *)
Definition learn_returns (w : World) (states : list State) (pid : nat) : Prop :=
  exists ag m, agents w !! pid = Some ag
    /\ Agent.learn ag (Agent.memory ag) states pid = inr m.

Definition learn_raises (w : World) (states : list State) (pid : nat)
    (e : Exn) : Prop :=
  exists ag, agents w !! pid = Some ag
    /\ Agent.learn ag (Agent.memory ag) states pid = inl e.

(** Every agent of the world is reliable. *)
Definition cooperative (w : World) : Prop :=
  Forall reliable (agents w).

(** Each state of a trajectory but the last is not terminal and some action
    leads from it to the next one. *)
Definition linked (states : list State) : Prop :=
  forall i s s', states !! i = Some s -> states !! S i = Some s' ->
    is_terminal s = false /\ exists a, act s a = Some s'.

(** Why a round stopped at [final]: it is terminal, or one of its moves
    leads back into the trajectory. *)
Definition stopped (states : list State) (final : State) : Prop :=
  is_terminal final = true
  \/ exists a s', act final a = Some s' /\ s' ∈ states.

(** What an event means to the y/n prompt. *)
Definition key_answer (e : PyEvent) : option bool :=
  match e with
  | KEYDOWN K_y => Some true
  | KEYDOWN K_n => Some false
  | _ => None
  end.

Definition is_space (e : PyEvent) : bool :=
  match e with KEYDOWN K_SPACE => true | _ => false end.

(** From [w] to [w']: the trace grew by events that are not timed waits. *)
Definition no_sleep_step (w w' : World) : Prop :=
  exists evs, trace w' = trace w ++ evs
              /\ Forall (fun e => match e with TimeWait _ => False | _ => True end)
                        evs.

(** The effect of an event on the number of holders of the screen lock. *)
Definition lock_delta (e : Event) : Z :=
  match e with
  | LockAcquire => 1
  | LockRelease => -1
  | _ => 0
  end.

Definition lock_depth (evs : list Event) : Z :=
  foldr (fun e n => lock_delta e + n) 0 evs.

(** From [w] to [w']: every acquisition of the lock was followed by its
    release. *)
Definition lock_balanced_step (w w' : World) : Prop :=
  exists evs, trace w' = trace w ++ evs /\ lock_depth evs = 0.

(** One pass of the refresh loop, at poll [p]. *)
Definition refresh_events (env : Env) (p : nat) : list Event :=
  [LockAcquire; DisplayUpdate; LockRelease; ClockTick 15;
   EventGet (pending env p)].

(** The memory an agent reaches after [k] proposals on [state] that are all
    rejected, starting from memory [m], if it makes that many ([decide] is
    the agent's method). *)
Fixpoint after_rejections (decide : Mem -> State -> Exn + (Action * Mem))
    (m : Mem) (state : State) (k : nat) : option Mem :=
  match k with
  | O => Some m
  | S k' =>
      match decide m state with
      | inr (a, m') =>
          match act state a with
          | None => after_rejections decide m' state k'
          | Some _ => None
          end
      | inl _ => None
      end
  end.

(** What [k] rejected attempts of agent [i] on [state] leave in the trace. *)
Definition rejected_attempts (i : nat) (state : State) (k : nat)
    : list Event :=
  concat (replicate k [Decide i state; LogInfo "Invalid action performed!"]).

(** The rest of a turn of [round_loop] once the decision loop has handed
    over [new_state] and [start_t]: lines 100 to 116 of the source, with the
    fuel [n], turn index [i] and trajectory [states] of the loop. *)
Definition finish_turn (env : Env) (n : nat) (self : Game) (turn_wait : Z)
    (pause_on_turn : bool) (i : Z) (states : list State)
    (new_state : State) (start_t : Z) : M (list State) :=
  bind (_draw_state self new_state) (fun _ =>
  if bool_decide (new_state ∈ states) then
    bind (emit (LogInfo "State has been repeated! Therefore, game is over."))
         (fun _ => ret states)
  else
    bind (now_ms env) (fun end_t =>
    bind (when pause_on_turn (pause_loop env n)) (fun _ =>
    bind (when ((0 <? turn_wait - (end_t - start_t)) && display self)
               (emit (TimeWait (turn_wait - (end_t - start_t))))) (fun _ =>
    round_loop env n self turn_wait pause_on_turn i new_state
      (states ++ [new_state]))))).

(** The events that read or write the shared display surface. *)
Definition surface_access (e : Event) : bool :=
  match e with
  | ScreenBlit _ _ _ | DrawRect _ _ _ _ | DisplayUpdate => true
  | _ => false
  end.

(** Every access to the surface in [evs] happens while the lock is held,
    the lock being held [depth] times when [evs] starts. *)
Fixpoint under_lock (depth : Z) (evs : list Event) : bool :=
  match evs with
  | [] => true
  | e :: rest =>
      (if surface_access e then 0 <? depth else true)
      && under_lock (depth + lock_delta e) rest
  end.

(** From [w] to [w']: the surface was touched under the lock only, and the
    lock was given back. *)
Definition guarded_step (w w' : World) : Prop :=
  exists evs, trace w' = trace w ++ evs
              /\ under_lock 0 evs = true /\ lock_depth evs = 0.

Definition is_time_wait (e : Event) : bool :=
  match e with TimeWait _ => true | _ => false end.

End Vocabulary.

(** * Properties *)

(** ** The validity check and [act] *)

Section ContractFacts.
Context {State Action : Type} `{GameState State Action}.
Variable step : State -> Action -> State.

Lemma action_is_valid_cases (s : State) (a : Action) :
  (is_terminal s = true /\ _action_is_valid s a = (None, [ErrTerminal]))
  \/ (is_terminal s = false /\ (a ∉ actions s)
      /\ _action_is_valid s a = (None, [ErrIllegal a (actions s)]))
  \/ (is_terminal s = false /\ a ∈ actions s
      /\ _action_is_valid s a = (Some s, [])).
Proof.
  unfold _action_is_valid.
  destruct (is_terminal s) eqn:Ht; [left; done|right].
  destruct (decide (a ∈ actions s)) as [Hin|Hout].
  - right. by rewrite bool_decide_eq_true_2.
  - left. by rewrite bool_decide_eq_false_2.
Qed.

(** C7. The validity check answers [None] exactly when the state is terminal
    or the action is not among [actions]; in every other case it answers the
    state itself, unchanged and without printing; it is a total function, so
    no case raises.  An [act] that validates through it rejects in exactly
    the same cases. *)
Theorem action_is_valid_rejects_exactly (s : State) (a : Action) :
  (fst (_action_is_valid s a) = None
     <-> is_terminal s = true \/ a ∉ actions s)
  /\ (fst (_action_is_valid s a) <> None
     -> _action_is_valid s a = (Some s, []))
  /\ (act_guarded step s a = None
     <-> is_terminal s = true \/ a ∉ actions s)
  /\ (act_guarded step s a <> None
     -> act_guarded step s a = Some (step s a)).
Proof.
  unfold act_guarded.
  destruct (action_is_valid_cases s a) as [[Ht ->]|[(Ht & Hn & ->)|(Ht & Hin & ->)]];
    simpl; repeat split; intros; try done; auto.
  - destruct H0 as [?|?]; [congruence|done].
  - destruct H0 as [?|?]; [congruence|done].
Qed.

Lemma act_guarded_accepts (s : State) (a : Action) :
  is_terminal s = false -> a ∈ actions s ->
  act_guarded step s a = Some (step s a).
Proof.
  intros Ht Hin. unfold act_guarded.
  destruct (action_is_valid_cases s a) as [[Ht' _]|[(_ & Hn & _)|(_ & _ & ->)]];
    [congruence|done|done].
Qed.

(** C8. On a non-terminal state and one of its actions, [act] succeeds; the
    successor is a new object, every object that existed before the call
    (the state acted on among them) holds the value it held, and acting
    again from the same state succeeds with a successor of the same
    value. *)
Theorem act_leaves_state_unchanged (heap : gmap positive State)
    (self : positive) (s : State) (a : Action) :
  heap !! self = Some s ->
  is_terminal s = false ->
  a ∈ actions s ->
  exists new heap',
    act_object step heap self a = (heap', Some new)
    /\ new <> self
    /\ heap' !! new = Some (step s a)
    /\ heap' !! self = Some s
    /\ (forall r v, heap !! r = Some v -> heap' !! r = Some v)
    /\ exists new2 heap2,
         act_object step heap' self a = (heap2, Some new2)
         /\ heap2 !! new2 = heap' !! new
         /\ heap2 !! self = Some s.
Proof.
  intros Hs Ht Hin.
  assert (Hfresh : forall (h : gmap positive State) r v,
             h !! r = Some v -> fresh (dom h) <> r).
  { intros h r v Hr Heq.
    apply (is_fresh (dom h)). rewrite Heq. apply elem_of_dom. eauto. }
  assert (Hkeep : forall (h : gmap positive State) r v x,
             h !! r = Some v -> <[fresh (dom h) := x]> h !! r = Some v).
  { intros h r v x Hr. rewrite lookup_insert_ne; [done|]. by eapply Hfresh. }
  exists (fresh (dom heap)), (<[fresh (dom heap) := step s a]> heap).
  assert (Hs' : <[fresh (dom heap) := step s a]> heap !! self = Some s)
    by by apply Hkeep.
  repeat split.
  - unfold act_object. rewrite Hs. by rewrite act_guarded_accepts.
  - by eapply Hfresh.
  - by rewrite lookup_insert_eq.
  - done.
  - intros r v Hr. by apply Hkeep.
  - set (heap' := <[fresh (dom heap) := step s a]> heap) in *.
    exists (fresh (dom heap')), (<[fresh (dom heap') := step s a]> heap').
    split; [|split].
    + unfold act_object. rewrite Hs'. by rewrite act_guarded_accepts.
    + unfold heap'. by rewrite !lookup_insert_eq.
    + by apply Hkeep.
Qed.

End ContractFacts.

(** C8 at a concrete heap: the countdown state [2] acted on with [Go]. *)
Lemma act_leaves_state_unchanged_witness :
  exists new heap',
    act_object (fun n _ => Nat.pred n) ({[ 1%positive := 2%nat ]}) 1%positive Toy.Go
      = (heap', Some new)
    /\ new <> 1%positive
    /\ heap' !! new = Some 1%nat
    /\ heap' !! 1%positive = Some 2%nat
    /\ (forall r v, ({[ 1%positive := 2%nat ]} : gmap positive nat) !! r = Some v
                    -> heap' !! r = Some v)
    /\ exists new2 heap2,
         act_object (fun n _ => Nat.pred n) heap' 1%positive Toy.Go
           = (heap2, Some new2)
         /\ heap2 !! new2 = heap' !! new
         /\ heap2 !! 1%positive = Some 2%nat.
Proof.
  apply (act_leaves_state_unchanged (fun n _ => Nat.pred n)
           ({[ 1%positive := 2%nat ]}) 1%positive 2%nat Toy.Go).
  - reflexivity.
  - reflexivity.
  - simpl. apply list_elem_of_here.
Defined.

(** ** The monad *)

Section EngineFacts.
Context {State Action Mem : Type} `{GameState State Action}.
Variable env : Env.

Abbreviation World := (World (State := State) (Action := Action) (Mem := Mem)).
Abbreviation M := (M (State := State) (Action := Action) (Mem := Mem)).
Abbreviation Event := (Event (State := State)).
Abbreviation round_step :=
  (round_step (State := State) (Action := Action) (Mem := Mem)).
Abbreviation quiet_step :=
  (quiet_step (State := State) (Action := Action) (Mem := Mem)).
Abbreviation alike :=
  (alike (State := State) (Action := Action) (Mem := Mem)).
Abbreviation silent :=
  (silent (State := State) (Action := Action) (Mem := Mem)).

Lemma bind_done {A B} (m : M A) (k : A -> M B) (w w1 : World) (a : A) :
  m w = (w1, Done a) -> bind m k w = k a w1.
Proof. intros Hm. unfold bind. by rewrite Hm. Qed.

Lemma bind_raised {A B} (m : M A) (k : A -> M B) (w w1 : World) (e : Exn) :
  m w = (w1, Raised e) -> bind m k w = (w1, Raised e).
Proof. intros Hm. unfold bind. by rewrite Hm. Qed.

Lemma bind_out_of_fuel {A B} (m : M A) (k : A -> M B) (w w1 : World) :
  m w = (w1, OutOfFuel) -> bind m k w = (w1, OutOfFuel).
Proof. intros Hm. unfold bind. by rewrite Hm. Qed.

Lemma bind_ext {A B} (m m' : M A) (k k' : A -> M B) (w : World) :
  m w = m' w -> (forall a w1, k a w1 = k' a w1) -> bind m k w = bind m' k' w.
Proof.
  intros Hm Hk. unfold bind. rewrite Hm.
  destruct (m' w) as [w1 [a| |]]; [apply Hk|done|done].
Qed.

(** ** Calling a generator function does nothing *)

Lemma draw_state_call (self : Game) (s : State) (w : World) :
  _draw_state self s w = (w, Done (Unstarted (_draw_state_body self s))).
Proof. reflexivity. Qed.

Lemma play_again_call (fuel : nat) (self : Game) (w : World) :
  _play_again env fuel self w
  = (w, Done (Unstarted (_play_again_body env fuel self))).
Proof. reflexivity. Qed.

Lemma run_display_call (fuel : nat) (self : Game) (screen : option Screen)
    (w : World) :
  _run_display env fuel self screen w
  = (w, Done (Unstarted (_run_display_body env fuel self screen))).
Proof. reflexivity. Qed.

(** ** Step invariants *)

Lemma quiet_step_refl (w : World) : quiet_step w w.
Proof. split; [done|]. exists []. by rewrite app_nil_r. Qed.

Lemma quiet_step_trans (w1 w2 w3 : World) :
  quiet_step w1 w2 -> quiet_step w2 w3 -> quiet_step w1 w3.
Proof.
  intros [Ha (e1 & He1 & Hf1)] [Hb (e2 & He2 & Hf2)].
  split; [congruence|].
  exists (e1 ++ e2). split.
  - by rewrite He2, He1, app_assoc.
  - by apply Forall_app.
Qed.

Lemma round_step_refl (w : World) : round_step w w.
Proof. split; [done|apply quiet_step_refl]. Qed.

Lemma round_step_trans (w1 w2 w3 : World) :
  round_step w1 w2 -> round_step w2 w3 -> round_step w1 w3.
Proof.
  intros [Ha Hq1] [Hb Hq2]. split; [congruence|].
  by eapply quiet_step_trans.
Qed.

Lemma round_step_quiet (w w' : World) : round_step w w' -> quiet_step w w'.
Proof. by intros [_ ?]. Qed.

Section Steps.
Variable R : World -> World -> Prop.
Hypothesis R_refl : forall w, R w w.
Hypothesis R_trans : forall w1 w2 w3, R w1 w2 -> R w2 w3 -> R w1 w3.

Lemma steps_ret {A} (a : A) : steps R (ret a).
Proof. intros w. apply R_refl. Qed.

Lemma steps_raise {A} (e : Exn) : steps R (raise (A := A) e).
Proof. intros w. apply R_refl. Qed.

Lemma steps_out_of_fuel {A} : steps R (out_of_fuel (A := A)).
Proof. intros w. apply R_refl. Qed.

Lemma steps_bind {A B} (m : M A) (k : A -> M B) :
  steps R m -> (forall a, steps R (k a)) -> steps R (bind m k).
Proof.
  intros Hm Hk w. specialize (Hm w). unfold bind.
  destruct (m w) as [w1 [a| |]]; simpl in *; [|done|done].
  eapply R_trans; [exact Hm|apply Hk].
Qed.

Lemma steps_when (b : bool) (m : M unit) : steps R m -> steps R (when b m).
Proof. intros Hm. destruct b; [done|apply steps_ret]. Qed.

End Steps.

(** The primitives of the drivers keep [round_step]. *)

Ltac primitive_step :=
  intros w; split; [reflexivity|]; split; [reflexivity|]; simpl;
  first [ exists []; split; [by rewrite app_nil_r|constructor]
        | eexists [_]; split; [reflexivity|by repeat constructor] ].

Lemma steps_emit (e : Event) :
  driver_event e = true -> steps round_step (emit e).
Proof. intros He. primitive_step. Qed.

Lemma steps_now_ms : steps round_step (now_ms env).
Proof. primitive_step. Qed.

Lemma steps_event_wait : steps round_step (event_wait env).
Proof. primitive_step. Qed.

Lemma steps_set_agent (i : nat) (a : Agent.t State Action Mem) :
  steps round_step (set_agent i a).
Proof. primitive_step. Qed.

Lemma steps_get_agent (i : nat) : steps round_step (get_agent i).
Proof. intros w. unfold get_agent. destruct (agents w !! i); apply round_step_refl. Qed.

Lemma steps_draw_state (self : Game) (s : State) :
  steps round_step (_draw_state self s).
Proof. intros w. apply round_step_refl. Qed.

Create HintDb steps.
#[local] Hint Resolve round_step_refl round_step_trans quiet_step_refl
  quiet_step_trans : steps.
#[local] Hint Resolve steps_emit steps_now_ms steps_event_wait steps_set_agent
  steps_get_agent steps_draw_state : steps.

Ltac step_bind :=
  apply (steps_bind round_step); [eauto with steps| |intros ?].
Tactic Notation "step_bind" "as" simple_intropattern(x) :=
  apply (steps_bind round_step); [eauto with steps| |intros x].

Lemma steps_call_decide (i : nat) (agent : Agent.t State Action Mem) (s : State) :
  steps round_step (call_decide i agent s).
Proof.
  unfold call_decide. step_bind.
  - by apply steps_emit.
  - destruct (Agent.decide agent (Agent.memory agent) s) as [e|[action m]].
    + apply steps_raise; eauto with steps.
    + step_bind; [eauto with steps|].
      apply steps_ret; eauto with steps.
Qed.

Lemma steps_call_learn (pid : nat) (agent : Agent.t State Action Mem)
    (states : list State) :
  steps round_step (call_learn pid agent states).
Proof.
  unfold call_learn. step_bind.
  - by apply steps_emit.
  - destruct (Agent.learn agent (Agent.memory agent) states pid) as [e|m].
    + apply steps_raise; eauto with steps.
    + eauto with steps.
Qed.

Lemma steps_next_index (i : Z) : steps round_step (next_index i).
Proof.
  intros w. unfold next_index, bind, len_agents. simpl.
  destruct (length (agents w) =? 0)%nat; apply round_step_refl.
Qed.

Lemma steps_decide_loop (fuel i : nat) (s : State) :
  steps round_step (decide_loop env fuel i s).
Proof.
  induction fuel as [|n IH]; simpl.
  - apply steps_out_of_fuel; eauto with steps.
  - step_bind; [eauto with steps|].
    step_bind; [eauto with steps|].
    step_bind as action; [apply steps_call_decide|].
    step_bind.
    + apply steps_when; eauto with steps.
    + destruct (act s action); [apply steps_ret; eauto with steps|exact IH].
Qed.

Lemma steps_pause_loop (fuel : nat) : steps round_step (pause_loop env fuel).
Proof.
  induction fuel as [|n IH]; simpl.
  - apply steps_out_of_fuel; eauto with steps.
  - step_bind; [by apply steps_emit|].
    step_bind as ev; [eauto with steps|].
    destruct ev as [[| | |]| |]; try exact IH.
    apply steps_ret; eauto with steps.
Qed.

Lemma steps_round_loop (fuel : nat) (self : Game) (turn_wait : Z)
    (pause_on_turn : bool) (i : Z) (s : State) (states : list State) :
  steps round_step (round_loop env fuel self turn_wait pause_on_turn i s states).
Proof.
  revert i s states.
  induction fuel as [|n IH]; intros i s states; simpl.
  - apply steps_out_of_fuel; eauto with steps.
  - destruct (is_terminal s); [apply steps_ret; eauto with steps|].
    step_bind; [apply steps_next_index|].
    step_bind; [apply steps_decide_loop|].
    step_bind; [eauto with steps|].
    destruct (bool_decide _).
    + step_bind; [by apply steps_emit|].
      apply steps_ret; eauto with steps.
    + step_bind; [eauto with steps|].
      step_bind.
      { apply steps_when; eauto with steps. apply steps_pause_loop. }
      step_bind.
      { apply steps_when; eauto with steps. }
      apply IH.
Qed.

Lemma steps_learn_from (pid count : nat) (states : list State) :
  steps round_step (learn_from pid count states).
Proof.
  revert pid. induction count as [|c IH]; intros pid; simpl.
  - apply steps_ret; eauto with steps.
  - step_bind; [eauto with steps|].
    step_bind; [apply steps_call_learn|].
    apply IH.
Qed.

Lemma steps_run_round (fuel : nat) (self : Game) (speed : Z)
    (pause_on_turn : bool) (screen : option Screen) :
  steps round_step (_run_round env fuel self speed pause_on_turn screen).
Proof.
  unfold _run_round.
  step_bind.
  { intros w. apply round_step_refl. }
  step_bind; [eauto with steps|].
  step_bind; [apply steps_round_loop|].
  step_bind.
  { unfold learn_all. step_bind.
    - intros w. apply round_step_refl.
    - apply steps_learn_from. }
  step_bind; [by apply steps_emit|].
  apply steps_ret; eauto with steps.
Qed.

(** ** The session driver *)

Lemma steps_weaken (R R' : World -> World -> Prop) {A} (m : M A) :
  (forall w w', R w w' -> R' w w') -> steps R m -> steps R' m.
Proof. intros HR Hm w. apply HR, Hm. Qed.

Lemma break_condition_pure (fuel : nat) (self : Game) (play_again : PyVal)
    (w : World) :
  exists b, break_condition env fuel self play_again w = (w, Done b).
Proof.
  unfold break_condition.
  destruct (negb (py_truth play_again)); [by eexists|].
  destruct (py_eq_query play_again), (py_isinstance_int play_again);
    by eexists.
Qed.

Lemma break_condition_never (fuel : nat) (self : Game) (play_again : PyVal)
    (w : World) :
  py_truth play_again = false ->
  break_condition env fuel self play_again w = (w, Done true).
Proof. intros Hf. unfold break_condition. by rewrite Hf. Qed.

Lemma break_condition_query (fuel : nat) (self : Game) (w : World) :
  break_condition env fuel self (PyStr "query") w = (w, Done false).
Proof. reflexivity. Qed.

Lemma break_condition_count (fuel : nat) (self : Game) (k : Z) (w : World) :
  k <> 0 ->
  break_condition env fuel self (PyInt k) w
  = (w, Done (Z.of_nat (length (games w)) <? k)).
Proof.
  intros Hk. unfold break_condition. simpl.
  destruct (Z.eqb_spec k 0); [done|reflexivity].
Qed.

Lemma steps_run_game (fuel : nat) (self : Game) (screen : option Screen)
    (play_again : PyVal) (speed : Z) (pause_on_turn : bool) :
  steps quiet_step
    (_run_game env fuel self screen play_again speed pause_on_turn).
Proof.
  induction fuel as [|n IH]; simpl.
  - apply steps_out_of_fuel, quiet_step_refl.
  - apply (steps_bind quiet_step); [apply quiet_step_trans| |intros t].
    { eapply steps_weaken; [apply round_step_quiet|apply steps_run_round]. }
    apply (steps_bind quiet_step); [apply quiet_step_trans| |intros _].
    { intros w. split; [done|]. exists []. split; [by rewrite app_nil_r|constructor]. }
    apply (steps_bind quiet_step); [apply quiet_step_trans| |intros stop].
    { intros w. destruct (break_condition_pure n self play_again w) as [b ->].
      apply quiet_step_refl. }
    destruct stop; [apply steps_ret, quiet_step_refl|exact IH].
Qed.

(** With a falsy [play_again] the session is one round. *)
Lemma run_game_never_one_round (n : nat) (self : Game)
    (screen : option Screen) (play_again : PyVal) (speed : Z)
    (pause_on_turn : bool) (w w1 : World) (t : list State) :
  py_truth play_again = false ->
  _run_round env n self speed pause_on_turn None w = (w1, Done t) ->
  _run_game env (S n) self screen play_again speed pause_on_turn w
  = (fst (append_game t w1), Done tt).
Proof.
  intros Hf Hr. simpl. rewrite (bind_done _ _ _ _ _ Hr).
  unfold bind at 1. simpl.
  unfold bind. by rewrite break_condition_never.
Qed.

(** With an integer [play_again] larger than the number of rounds collected
    after the first round, the session stops after that round. *)
Lemma run_game_count_stops_early (n : nat) (self : Game)
    (screen : option Screen) (k : Z) (speed : Z) (pause_on_turn : bool)
    (w w1 : World) (t : list State) :
  Z.of_nat (S (length (games w))) < k ->
  _run_round env n self speed pause_on_turn None w = (w1, Done t) ->
  _run_game env (S n) self screen (PyInt k) speed pause_on_turn w
  = (fst (append_game t w1), Done tt).
Proof.
  intros Hk Hr. simpl. rewrite (bind_done _ _ _ _ _ Hr).
  unfold bind at 1. simpl.
  unfold bind. rewrite break_condition_count by lia. simpl.
  pose proof (steps_run_round n self speed pause_on_turn None w) as [Hg _].
  rewrite Hr in Hg. simpl in Hg.
  rewrite length_app, Hg. simpl.
  destruct (Z.ltb_spec (Z.of_nat (length (games w) + 1)) k); [done|lia].
Qed.

(** With an integer [play_again] that the first round already reaches, the
    loop has no exit. *)
Lemma run_game_count_reached_never_stops (fuel : nat) (self : Game)
    (screen : option Screen) (k : Z) (speed : Z) (pause_on_turn : bool)
    (w : World) :
  k <> 0 ->
  k <= Z.of_nat (S (length (games w))) ->
  snd (_run_game env fuel self screen (PyInt k) speed pause_on_turn w)
  <> Done tt.
Proof.
  intros Hk0. revert w. induction fuel as [|n IH]; intros w Hk; simpl; [done|].
  unfold bind at 1.
  pose proof (steps_run_round n self speed pause_on_turn None w) as [Hg _].
  destruct (_run_round env n self speed pause_on_turn None w)
    as [w1 [t| |]]; simpl in *; [|done|done].
  unfold bind at 1. simpl.
  unfold bind. rewrite break_condition_count by done. simpl.
  rewrite length_app, Hg. simpl.
  destruct (Z.ltb_spec (Z.of_nat (length (games w) + 1)) k); [lia|].
  apply IH. cbn [games]. rewrite length_app. cbn [length]. lia.
Qed.

(** Neither [speed] nor [screen] reaches the round driver. *)
Lemma run_game_ignores_speed (fuel : nat) (self : Game)
    (screen screen' : option Screen) (play_again : PyVal) (speed speed' : Z)
    (pause_on_turn : bool) (w : World) :
  _run_game env fuel self screen play_again speed pause_on_turn w
  = _run_game env fuel self screen' play_again speed' pause_on_turn w.
Proof.
  revert w. induction fuel as [|n IH]; intros w; simpl; [done|].
  apply bind_ext; [reflexivity|intros t w1].
  apply bind_ext; [reflexivity|intros _ w2].
  apply bind_ext; [reflexivity|intros stop w3].
  destruct stop; [done|apply IH].
Qed.

(** The budgets [_run_round] computes when it is given a screen. *)
Lemma wait_budgets_with_screen (scr : Screen) (speed : Z) :
  wait_budgets (Some scr) speed
  = if speed =? 2 then (0, 10)
    else if speed =? 1 then (50, 100) else (500, 1000).
Proof. reflexivity. Qed.

Lemma wait_budgets_without_screen (speed : Z) :
  wait_budgets None speed = (0, 0).
Proof. reflexivity. Qed.

(** C4. With [play_again = 'query'] the session never asks and never ends:
    whatever the fuel, [_run_game] has not returned, no prompt was answered,
    and the trace holds driver events only (no prompt was rendered). *)
Theorem run_game_query_never_stops (fuel : nat) (self : Game)
    (screen : option Screen) (speed : Z) (pause_on_turn : bool) (w : World) :
  snd (_run_game env fuel self screen (PyStr "query") speed pause_on_turn w)
    <> Done tt
  /\ asked (fst (_run_game env fuel self screen (PyStr "query") speed
                   pause_on_turn w)) = asked w
  /\ exists evs,
       trace (fst (_run_game env fuel self screen (PyStr "query") speed
                     pause_on_turn w)) = trace w ++ evs
       /\ Forall (fun e => driver_event e = true) evs.
Proof.
  split; [|apply (steps_run_game fuel self screen (PyStr "query"))].
  revert w. induction fuel as [|n IH]; intros w; simpl; [done|].
  unfold bind at 1.
  destruct (_run_round env n self speed pause_on_turn None w)
    as [w1 [t| |]]; simpl; [|done|done].
  unfold bind at 1. simpl. unfold bind.
  rewrite break_condition_query. apply IH.
Qed.

(** ** Rejections *)

Lemma decide_loop_raises_from_agents (fuel i : nat) (state : State)
    (w : World) (e : Exn) :
  snd (decide_loop env fuel i state w) = Raised e ->
  e = IndexError
  \/ exists (ag : Agent.t State Action Mem) mem,
         Agent.decide ag mem state = inl e.
Proof.
  revert w. induction fuel as [|n IH]; intros w; simpl; [done|].
  unfold bind, get_agent, call_decide, when, emit, set_agent, ret, raise.
  simpl.
  destruct (agents w !! i) as [ag|]; simpl; [|intros [= <-]; by left].
  destruct (Agent.decide ag (Agent.memory ag) state) as [e'|[a m]] eqn:Hd; simpl.
  - intros [= <-]. right. eauto.
  - destruct (act state a) as [s'|]; simpl.
    + destruct (truthy s'); simpl; done.
    + apply IH.
Qed.

(** One rejected attempt: the decision loop goes on for the same agent index
    and the same state, in the world the attempt left. *)
Lemma decide_loop_rejected_once (fuel i : nat) (state : State)
    (w : World) (agent : Agent.t State Action Mem) (action : Action)
    (m : Mem) :
  agents w !! i = Some agent ->
  Agent.decide agent (Agent.memory agent) state = inr (action, m) ->
  act state action = None ->
  decide_loop env (S fuel) i state w
    = decide_loop env fuel i state (after_rejection w i agent m state)
  /\ trace (after_rejection w i agent m state)
      = trace w ++ [Decide i state; LogInfo "Invalid action performed!"]
  /\ games (after_rejection w i agent m state) = games w
  /\ forall e,
       snd (decide_loop env (S fuel) i state w) = Raised e ->
       e = IndexError \/ exists (ag : Agent.t State Action Mem) mem,
         Agent.decide ag mem state = inl e.
Proof.
  intros Hi Hd Ha. split; [|split; [|split]].
  - simpl.
    unfold bind, get_agent, call_decide, when, emit, set_agent, ret, raise.
    simpl. rewrite Hi. simpl. rewrite Hd. simpl. rewrite Ha. reflexivity.
  - simpl. by rewrite <- app_assoc.
  - reflexivity.
  - intros e. apply decide_loop_raises_from_agents.
Qed.

(** ** The learn hook *)

Lemma learn_from_all_return (count pid : nat) (states : list State)
    (w : World) :
  (pid + count)%nat = length (agents w) ->
  (forall j, (pid <= j)%nat -> (j < length (agents w))%nat ->
             learn_returns w states j) ->
  exists w',
    learn_from pid count states w = (w', Done tt)
    /\ trace w' = trace w ++ learn_calls pid count states.
Proof.
  revert pid w. induction count as [|c IH]; intros pid w Hlen Hok; simpl.
  - exists w. split; [done|]. unfold learn_calls. simpl. by rewrite app_nil_r.
  - destruct (Hok pid) as (ag & m & Hag & Hl); [lia|lia|].
    unfold bind at 1. unfold get_agent at 1. rewrite Hag.
    unfold bind at 1. unfold call_learn. unfold bind at 1. simpl.
    rewrite Hl. simpl.
    match goal with |- context [learn_from (S pid) c states ?w1] =>
      destruct (IH (S pid) w1) as (w' & Hrun & Htr) end.
    + simpl. rewrite length_insert. lia.
    + simpl. intros j Hj Hlt. rewrite length_insert in Hlt.
      destruct (Hok j) as (ag' & m' & Hag' & Hl'); [lia|lia|].
      exists ag', m'. split; [|done]. simpl.
      rewrite list_lookup_insert_ne by lia. done.
    + exists w'. split; [exact Hrun|].
      rewrite Htr. simpl. unfold learn_calls. simpl.
      by rewrite <- app_assoc.
Qed.

Lemma learn_from_first_raise (count pid k : nat) (states : list State)
    (w : World) (e : Exn) :
  (pid <= k)%nat -> (k < pid + count)%nat ->
  learn_raises w states k e ->
  (forall j, (pid <= j)%nat -> (j < k)%nat -> learn_returns w states j) ->
  exists w',
    learn_from pid count states w = (w', Raised e)
    /\ trace w' = trace w ++ learn_calls pid (S k - pid) states.
Proof.
  revert pid w. induction count as [|c IH]; intros pid w Hle Hlt Hbad Hok;
    [lia|]. simpl.
  destruct (decide (pid = k)) as [->|Hne].
  - destruct Hbad as (ag & Hag & Hl).
    unfold bind at 1. unfold get_agent at 1. rewrite Hag.
    unfold bind at 1. unfold call_learn. unfold bind at 1. simpl.
    rewrite Hl. simpl. eexists. split; [reflexivity|].
    simpl. replace (S k - k)%nat with 1%nat by lia. reflexivity.
  - destruct (Hok pid) as (ag & m & Hag & Hl); [lia|lia|].
    unfold bind at 1. unfold get_agent at 1. rewrite Hag.
    unfold bind at 1. unfold call_learn. unfold bind at 1. simpl.
    rewrite Hl. simpl.
    match goal with |- context [learn_from (S pid) c states ?w1] =>
      destruct (IH (S pid) w1) as (w' & Hrun & Htr) end.
    + lia.
    + lia.
    + destruct Hbad as (ag' & Hag' & Hl'). exists ag'. split; [|done].
      simpl. rewrite list_lookup_insert_ne by lia. done.
    + intros j Hj Hjk.
      destruct (Hok j) as (ag' & m' & Hag' & Hl'); [lia|lia|].
      exists ag', m'. split; [|done]. simpl.
      rewrite list_lookup_insert_ne by lia. done.
    + exists w'. split; [exact Hrun|].
      rewrite Htr. simpl. unfold learn_calls.
      replace (S k - pid)%nat with (S (S k - S pid))%nat by lia.
      simpl. by rewrite <- app_assoc.
Qed.

(** [_run_round] in terms of its loop and of [learn_all]. *)
Lemma run_round_after_loop (fuel : nat) (self : Game) (speed : Z)
    (pause_on_turn : bool) (screen : option Screen) (w w1 : World)
    (states : list State) :
  round_loop env fuel self (fst (wait_budgets screen speed)) pause_on_turn
    (-1) (init (game_type self) (agents w))
    [init (game_type self) (agents w)] w = (w1, Done states) ->
  _run_round env fuel self speed pause_on_turn screen w
  = match learn_from 0 (length (agents w1)) states w1 with
    | (w2, Done _) =>
        (fst (emit (TimeWait (snd (wait_budgets screen speed))) w2),
         Done states)
    | (w2, Raised e) => (w2, Raised e)
    | (w2, OutOfFuel) => (w2, OutOfFuel)
    end.
Proof.
  intros Hloop. unfold _run_round.
  unfold bind at 1. simpl. unfold bind at 1. simpl.
  unfold bind at 1. rewrite Hloop.
  unfold bind at 1. unfold learn_all. unfold bind at 1. simpl.
  destruct (learn_from 0 (length (agents w1)) states w1) as [w2 [[]| |]];
    reflexivity.
Qed.

(** C6 (amended). Once the round loop has ended with trajectory [states]:
    if every agent's [learn] returns, the driver calls [learn] once per
    agent, in list order, each with the whole trajectory and its own index,
    then waits [round_wait] and returns the trajectory; if the [learn] of
    agent [k] raises and those before it return, the calls stop at agent
    [k] and the exception leaves [_run_round] in place of the trajectory. *)
Theorem run_round_learn_calls (fuel : nat) (self : Game) (speed : Z)
    (pause_on_turn : bool) (screen : option Screen) (w w1 : World)
    (states : list State) :
  round_loop env fuel self (fst (wait_budgets screen speed)) pause_on_turn
    (-1) (init (game_type self) (agents w))
    [init (game_type self) (agents w)] w = (w1, Done states) ->
  ((forall pid, (pid < length (agents w1))%nat -> learn_returns w1 states pid) ->
   exists w2,
     _run_round env fuel self speed pause_on_turn screen w = (w2, Done states)
     /\ trace w2 = trace w1 ++ learn_calls 0 (length (agents w1)) states
                           ++ [TimeWait (snd (wait_budgets screen speed))])
  /\ (forall k e,
       (k < length (agents w1))%nat ->
       learn_raises w1 states k e ->
       (forall pid, (pid < k)%nat -> learn_returns w1 states pid) ->
       exists w2,
         _run_round env fuel self speed pause_on_turn screen w = (w2, Raised e)
         /\ trace w2 = trace w1 ++ learn_calls 0 (S k) states).
Proof.
  intros Hloop. rewrite (run_round_after_loop _ _ _ _ _ _ _ _ Hloop). split.
  - intros Hok.
    destruct (learn_from_all_return (length (agents w1)) 0 states w1)
      as (w2 & -> & Htr); [done|by intros; apply Hok|].
    eexists. split; [reflexivity|]. simpl. by rewrite Htr, <- app_assoc.
  - intros k e Hk Hbad Hok.
    destruct (learn_from_first_raise (length (agents w1)) 0 k states w1 e)
      as (w2 & -> & Htr); [lia|lia|done|by intros; apply Hok|].
    eexists. split; [reflexivity|].
    rewrite Htr. by replace (S k - 0)%nat with (S k) by lia.
Qed.

(** ** A game that cycles between two states *)

Lemma next_index_in_range (i : Z) (w : World) :
  agents w <> [] ->
  exists j, next_index i w = (w, Done j)
            /\ (Z.to_nat j < length (agents w))%nat
            /\ (i = -1 -> j = 0).
Proof.
  intros Hne. unfold next_index, bind, len_agents. simpl.
  destruct (agents w) as [|ag l] eqn:Hag; [done|]. simpl.
  eexists. split; [reflexivity|]. split.
  - pose proof (Z.mod_pos_bound (i + 1) (Z.pos (Pos.of_succ_nat (length l)))).
    lia.
  - intros ->. reflexivity.
Qed.

Lemma reliable_set_memory (ag : Agent.t State Action Mem) (Inv : Mem -> Prop)
    (m : Mem) :
  Inv m ->
  (forall m s, Inv m -> is_terminal s = false ->
     exists a m', Agent.decide ag m s = inr (a, m')
                  /\ a ∈ actions s /\ Inv m') ->
  (forall m ss pid, Inv m ->
     exists m', Agent.learn ag m ss pid = inr m' /\ Inv m') ->
  reliable (Agent.set_memory ag m).
Proof. intros Hm Hd Hl. exists Inv. by repeat split. Qed.

Lemma decide_loop_accepts (n i : nat) (s s' : State) (w : World) :
  cooperative w ->
  is_terminal s = false ->
  (i < length (agents w))%nat ->
  (forall a, a ∈ actions s -> act s a = Some s') ->
  exists w',
    decide_loop env (S n) i s w = (w', Done (s', clock env (ticks w)))
    /\ cooperative w'
    /\ length (agents w') = length (agents w)
    /\ polled w' = polled w.
Proof.
  intros Hco Hlive Hi Hact.
  destruct (lookup_lt_is_Some_2 (agents w) i Hi) as [ag Hag].
  pose proof (Forall_lookup_1 _ _ _ _ Hco Hag) as (Inv & Hinv & Hdec & Hlearn).
  destruct (Hdec (Agent.memory ag) s Hinv Hlive) as (a & m & Hd & Hin & Hm).
  simpl.
  unfold bind, get_agent, call_decide, when, emit, set_agent, ret, raise.
  simpl. rewrite Hag. simpl. rewrite Hd. simpl.
  rewrite (Hact a Hin). simpl.
  assert (Hco' : Forall reliable (<[i := Agent.set_memory ag m]> (agents w))).
  { apply Forall_insert; [exact Hco|]. by apply (reliable_set_memory ag Inv). }
  destruct (truthy s'); simpl; eexists; (split; [reflexivity|]);
    unfold cooperative; simpl; rewrite length_insert; done.
Qed.

Lemma pause_loop_ends (d : nat) :
  forall (fuel : nat) (w : World),
    keyboard env (polled w + d) = KEYDOWN K_SPACE ->
    (d < fuel)%nat ->
    exists w', pause_loop env fuel w = (w', Done tt)
               /\ agents w' = agents w.
Proof.
  induction d as [|d IH]; intros fuel w Hkey Hlt;
    (destruct fuel as [|n]; [lia|]); simpl;
    unfold bind, emit, event_wait; simpl.
  - rewrite Nat.add_0_r in Hkey. rewrite Hkey. by eexists.
  - destruct (keyboard env (polled w)) as [[| | |]| |] eqn:Hk;
      try (by eexists);
      match goal with |- context [pause_loop env n ?w1] =>
        destruct (IH n w1) as (w' & -> & Hag);
          [simpl; rewrite <- Hkey; f_equal; lia
          |lia
          |by exists w']
      end.
Qed.

Lemma learn_all_cooperative (states : list State) (w : World) :
  cooperative w ->
  exists w', learn_all states w = (w', Done tt).
Proof.
  intros Hco. unfold learn_all, bind, len_agents. simpl.
  destruct (learn_from_all_return (length (agents w)) 0 states w)
    as (w' & Hrun & _); [done| |by exists w'].
  intros j _ Hj.
  destruct (lookup_lt_is_Some_2 (agents w) j Hj) as [ag Hag].
  pose proof (Forall_lookup_1 _ _ _ _ Hco Hag) as (Inv & Hinv & _ & Hlearn).
  destruct (Hlearn (Agent.memory ag) states j Hinv) as (m & Hm & _).
  by exists ag, m.
Qed.

Section TwoCycle.
Variables A B : State.
Hypothesis A_not_B : A <> B.
Hypothesis A_live : is_terminal A = false.
Hypothesis B_live : is_terminal B = false.
Hypothesis A_to_B : forall a, a ∈ actions A -> act A a = Some B.
Hypothesis B_to_A : forall a, a ∈ actions B -> act B a = Some A.

Lemma round_loop_cycle_second_turn (k : nat) (self : Game) (turn_wait : Z)
    (pause_on_turn : bool) (i : Z) (w : World) :
  cooperative w -> agents w <> [] ->
  exists w', round_loop env (S (S k)) self turn_wait pause_on_turn i B [A; B] w
             = (w', Done [A; B])
             /\ cooperative w'.
Proof.
  intros Hco Hne.
  change (round_loop env (S (S k)) self turn_wait pause_on_turn i B [A; B])
    with (if is_terminal B then ret [A; B]
          else
            i <- next_index i ;;
            r <- decide_loop env (S k) (Z.to_nat i) B ;;
            _draw_state self (fst r) ;;;
            if bool_decide (fst r ∈ [A; B]) then
              emit (LogInfo "State has been repeated! Therefore, game is over.") ;;;
              ret [A; B]
            else
              end_t <- now_ms env ;;
              when pause_on_turn (pause_loop env (S k)) ;;;
              when ((0 <? turn_wait - (end_t - snd r)) && display self)
                   (emit (TimeWait (turn_wait - (end_t - snd r)))) ;;;
              round_loop env (S k) self turn_wait pause_on_turn i (fst r)
                ([A; B] ++ [fst r])).
  rewrite B_live.
  destruct (next_index_in_range i w Hne) as (j & Hj & Hlt & _).
  rewrite (bind_done _ _ _ _ _ Hj).
  destruct (decide_loop_accepts k (Z.to_nat j) B A w Hco B_live Hlt B_to_A)
    as (w1 & Hd & Hco1 & _ & _).
  rewrite (bind_done _ _ _ _ _ Hd). simpl fst.
  rewrite (bind_done _ _ _ _ _ (draw_state_call self A w1)).
  rewrite bool_decide_eq_true_2 by apply list_elem_of_here.
  unfold bind, emit, ret. simpl. eexists. split; [reflexivity|exact Hco1].
Qed.

Lemma round_loop_cycle (k d : nat) (self : Game) (turn_wait : Z)
    (pause_on_turn : bool) (w : World) :
  cooperative w -> agents w <> [] ->
  (pause_on_turn = true ->
   keyboard env (polled w + d) = KEYDOWN K_SPACE /\ (d < S (S k))%nat) ->
  exists w', round_loop env (S (S (S k))) self turn_wait pause_on_turn (-1)
               A [A] w = (w', Done [A; B])
             /\ cooperative w'.
Proof.
  intros Hco Hne Hpause.
  change (round_loop env (S (S (S k))) self turn_wait pause_on_turn (-1) A [A])
    with (if is_terminal A then ret [A]
          else
            i <- next_index (-1) ;;
            r <- decide_loop env (S (S k)) (Z.to_nat i) A ;;
            _draw_state self (fst r) ;;;
            if bool_decide (fst r ∈ [A]) then
              emit (LogInfo "State has been repeated! Therefore, game is over.") ;;;
              ret [A]
            else
              end_t <- now_ms env ;;
              when pause_on_turn (pause_loop env (S (S k))) ;;;
              when ((0 <? turn_wait - (end_t - snd r)) && display self)
                   (emit (TimeWait (turn_wait - (end_t - snd r)))) ;;;
              round_loop env (S (S k)) self turn_wait pause_on_turn i (fst r)
                ([A] ++ [fst r])).
  rewrite A_live.
  destruct (next_index_in_range (-1) w Hne) as (j & Hj & Hlt & Hj0).
  rewrite (bind_done _ _ _ _ _ Hj).
  destruct (decide_loop_accepts (S k) (Z.to_nat j) A B w Hco A_live Hlt A_to_B)
    as (w1 & Hd & Hco1 & Hlen1 & Hpol1).
  rewrite (bind_done _ _ _ _ _ Hd). simpl fst. simpl snd.
  rewrite (bind_done _ _ _ _ _ (draw_state_call self B w1)).
  rewrite bool_decide_eq_false_2.
  2:{ intros Hin. apply list_elem_of_singleton in Hin. by apply A_not_B. }
  assert (Hne1 : agents w1 <> []).
  { intros Hnil. apply Hne. apply length_zero_iff_nil.
    rewrite <- Hlen1, Hnil. reflexivity. }
  unfold bind at 1. simpl.
  assert (Hp : exists w2,
             when pause_on_turn (pause_loop env (S (S k)))
               (fst (now_ms env w1)) = (w2, Done tt)
             /\ agents w2 = agents w1).
  { destruct pause_on_turn; unfold when; [|by eexists].
    destruct Hpause as [Hkey Hd']; [done|].
    destruct (pause_loop_ends d (S (S k)) (fst (now_ms env w1)))
      as (w2 & Hw2 & Hag2); [simpl; by rewrite Hpol1|exact Hd'|].
    exists w2. split; [exact Hw2|exact Hag2]. }
  destruct Hp as (w2 & Hw2 & Hag2).
  rewrite (bind_done _ _ _ _ _ Hw2).
  match goal with |- context [when ?c ?m] =>
    assert (Hq : exists w3, when c m w2 = (w3, Done tt)
                            /\ agents w3 = agents w2)
      by (destruct c; simpl; by eexists)
  end.
  destruct Hq as (w3 & Hw3 & Hag3).
  rewrite (bind_done _ _ _ _ _ Hw3).
  apply round_loop_cycle_second_turn.
  - unfold cooperative. by rewrite Hag3, Hag2.
  - by rewrite Hag3, Hag2.
Qed.

(** C2 (amended). In a game where every action of [A] leads to [B] and
    every action of [B] leads back to [A], started in [A] with agents that
    keep to their contract (and, under [pause_on_turn], a user who
    eventually hits space), the round ends: with enough fuel [_run_round]
    returns, and the trajectory it returns is [A; B].  The state that
    repeats ends the round and is not appended. *)
Theorem two_state_cycle_round (self : Game) (speed : Z)
    (pause_on_turn : bool) (screen : option Screen) (w : World) :
  init (game_type self) (agents w) = A ->
  agents w <> [] ->
  cooperative w ->
  (pause_on_turn = true ->
   exists d, keyboard env (polled w + d) = KEYDOWN K_SPACE) ->
  exists fuel0, forall fuel, (fuel0 <= fuel)%nat ->
    exists w', _run_round env fuel self speed pause_on_turn screen w
               = (w', Done [A; B]).
Proof.
  intros Hinit Hne Hco Hpause.
  assert (Hd : exists d, pause_on_turn = true ->
                         keyboard env (polled w + d) = KEYDOWN K_SPACE).
  { destruct pause_on_turn; [|by exists 0%nat].
    destruct Hpause as [d Hd]; [done|]. by exists d. }
  destruct Hd as [d Hd].
  exists (S (S (S d))). intros fuel Hfuel.
  destruct fuel as [|[|[|k]]]; [lia|lia|lia|].
  destruct (round_loop_cycle k d self (fst (wait_budgets screen speed))
              pause_on_turn w Hco Hne) as (w1 & Hloop & Hco1).
  { intros Hp. split; [by apply Hd|lia]. }
  rewrite <- Hinit in Hloop at 1 2.
  rewrite (run_round_after_loop _ _ _ _ _ _ _ _ Hloop).
  destruct (learn_all_cooperative [A; B] w1 Hco1) as (w2 & Hlearn).
  unfold learn_all, bind, len_agents in Hlearn. simpl in Hlearn.
  rewrite Hlearn. by eexists.
Qed.

End TwoCycle.

(** ** The outcome of a round does not depend on what concerns rendering *)

Lemma same_but_trace_refl (w : World) : same_but_trace w w.
Proof. by repeat split. Qed.

Lemma same_but_trace_sym (w1 w2 : World) :
  same_but_trace w1 w2 -> same_but_trace w2 w1.
Proof. intros (?&?&?&?&?). by repeat split. Qed.

Lemma same_but_trace_trans (w1 w2 w3 : World) :
  same_but_trace w1 w2 -> same_but_trace w2 w3 -> same_but_trace w1 w3.
Proof. intros (?&?&?&?&?) (?&?&?&?&?). repeat split; congruence. Qed.

Lemma alike_ret {A} (a : A) : alike (ret a) (ret a).
Proof. intros w1 w2 Hw. by split. Qed.

Lemma alike_bind {A B} (m1 m2 : M A) (k1 k2 : A -> M B) :
  alike m1 m2 -> (forall a, alike (k1 a) (k2 a)) ->
  alike (bind m1 k1) (bind m2 k2).
Proof.
  intros Hm Hk w1 w2 Hw. destruct (Hm w1 w2 Hw) as [Hs Hr]. unfold bind.
  destruct (m1 w1) as [w1' r1], (m2 w2) as [w2' r2]. simpl in *. subst r2.
  destruct r1; [by apply Hk|by split|by split].
Qed.

Lemma alike_silent (m1 m2 : M unit) : silent m1 -> silent m2 -> alike m1 m2.
Proof.
  intros H1 H2 w1 w2 Hw.
  destruct (H1 w1) as [Hr1 Hs1], (H2 w2) as [Hr2 Hs2]. split.
  - eapply same_but_trace_trans; [exact Hs1|].
    eapply same_but_trace_trans; [exact Hw|].
    by apply same_but_trace_sym.
  - congruence.
Qed.

Lemma silent_emit (e : Event) : silent (emit e).
Proof. intros w. split; [done|by repeat split]. Qed.

Lemma silent_when_emit (b : bool) (e : Event) : silent (when b (emit e)).
Proof. destruct b; [apply silent_emit|]. intros w. split; [done|by repeat split]. Qed.

Lemma alike_skip_draw {A} (self1 self2 : Game) (s1 s2 : State)
    (k1 k2 : M A) :
  alike k1 k2 ->
  alike (_draw_state self1 s1 ;;; k1) (_draw_state self2 s2 ;;; k2).
Proof. intros Hk w1 w2 Hw. unfold bind. simpl. by apply Hk. Qed.

Ltac alike_primitive :=
  intros [a1 g1 t1 p1 k1 tr1] [a2 g2 t2 p2 k2 tr2] (Ha & Hg & Ht & Hp & Hk);
  simpl in *; subst.

Lemma alike_now_ms : alike (now_ms env) (now_ms env).
Proof. alike_primitive. by repeat split. Qed.

Lemma alike_event_wait : alike (event_wait env) (event_wait env).
Proof. alike_primitive. by repeat split. Qed.

Lemma alike_get_agent (i : nat) : alike (get_agent i) (get_agent i).
Proof.
  alike_primitive. unfold get_agent. simpl.
  destruct (a2 !! i); by repeat split.
Qed.

Lemma alike_get_agents : alike get_agents get_agents.
Proof. alike_primitive. by repeat split. Qed.

Lemma alike_len_agents : alike len_agents len_agents.
Proof. alike_primitive. by repeat split. Qed.

Lemma alike_set_agent (i : nat) (a : Agent.t State Action Mem) :
  alike (set_agent i a) (set_agent i a).
Proof. alike_primitive. by repeat split. Qed.

Lemma alike_emit (e1 e2 : Event) : alike (emit e1) (emit e2).
Proof. apply alike_silent; apply silent_emit. Qed.

Lemma alike_raise {A} (e : Exn) : alike (raise (A := A) e) (raise e).
Proof. intros w1 w2 Hw. by split. Qed.

Lemma alike_out_of_fuel {A} : alike (out_of_fuel (A := A)) out_of_fuel.
Proof. intros w1 w2 Hw. by split. Qed.

Lemma alike_call_decide (i : nat) (agent : Agent.t State Action Mem)
    (s : State) :
  alike (call_decide i agent s) (call_decide i agent s).
Proof.
  unfold call_decide. apply alike_bind; [apply alike_emit|intros _].
  destruct (Agent.decide agent (Agent.memory agent) s) as [e|[a m]].
  - apply alike_raise.
  - apply alike_bind; [apply alike_set_agent|intros _; apply alike_ret].
Qed.

Lemma alike_call_learn (pid : nat) (agent : Agent.t State Action Mem)
    (states : list State) :
  alike (call_learn pid agent states) (call_learn pid agent states).
Proof.
  unfold call_learn. apply alike_bind; [apply alike_emit|intros _].
  destruct (Agent.learn agent (Agent.memory agent) states pid) as [e|m].
  - apply alike_raise.
  - apply alike_set_agent.
Qed.

Lemma alike_next_index (i : Z) : alike (next_index i) (next_index i).
Proof.
  unfold next_index. apply alike_bind; [apply alike_len_agents|intros n].
  destruct (n =? 0)%nat; [apply alike_raise|apply alike_ret].
Qed.

Lemma alike_decide_loop (fuel i : nat) (s : State) :
  alike (decide_loop env fuel i s) (decide_loop env fuel i s).
Proof.
  induction fuel as [|n IH]; simpl; [apply alike_out_of_fuel|].
  apply alike_bind; [apply alike_now_ms|intros start_t].
  apply alike_bind; [apply alike_get_agent|intros agent].
  apply alike_bind; [apply alike_call_decide|intros action].
  apply alike_bind.
  - apply alike_silent; apply silent_when_emit.
  - intros _. destruct (act s action); [apply alike_ret|exact IH].
Qed.

Lemma alike_pause_loop (fuel : nat) :
  alike (pause_loop env fuel) (pause_loop env fuel).
Proof.
  induction fuel as [|n IH]; simpl; [apply alike_out_of_fuel|].
  apply alike_bind; [apply alike_emit|intros _].
  apply alike_bind; [apply alike_event_wait|intros ev].
  destruct ev as [[| | |]| |]; try exact IH. apply alike_ret.
Qed.

Lemma alike_round_loop (fuel : nat) (self1 self2 : Game)
    (turn_wait1 turn_wait2 : Z) (pause_on_turn : bool) :
  forall (i : Z) (s : State) (states : list State),
    alike (round_loop env fuel self1 turn_wait1 pause_on_turn i s states)
          (round_loop env fuel self2 turn_wait2 pause_on_turn i s states).
Proof.
  induction fuel as [|n IH]; intros i s states; simpl;
    [apply alike_out_of_fuel|].
  destruct (is_terminal s); [apply alike_ret|].
  apply alike_bind; [apply alike_next_index|intros j].
  apply alike_bind; [apply alike_decide_loop|intros r].
  apply alike_skip_draw.
  destruct (bool_decide _).
  - apply alike_bind; [apply alike_emit|intros _; apply alike_ret].
  - apply alike_bind; [apply alike_now_ms|intros end_t].
    apply alike_bind.
    { destruct pause_on_turn; [apply alike_pause_loop|apply alike_ret]. }
    intros _. apply alike_bind.
    { apply alike_silent; apply silent_when_emit. }
    intros _. apply IH.
Qed.

Lemma alike_learn_from (count : nat) (states : list State) :
  forall pid, alike (learn_from pid count states) (learn_from pid count states).
Proof.
  induction count as [|c IH]; intros pid; simpl; [apply alike_ret|].
  apply alike_bind; [apply alike_get_agent|intros agent].
  apply alike_bind; [apply alike_call_learn|intros _; apply IH].
Qed.

Lemma alike_run_round (fuel : nat) (self1 self2 : Game) (speed1 speed2 : Z)
    (pause_on_turn : bool) (screen1 screen2 : option Screen) :
  game_type self1 = game_type self2 ->
  alike (_run_round env fuel self1 speed1 pause_on_turn screen1)
        (_run_round env fuel self2 speed2 pause_on_turn screen2).
Proof.
  intros Hgt. unfold _run_round. rewrite Hgt.
  apply alike_bind; [apply alike_get_agents|intros ags].
  apply alike_skip_draw.
  apply alike_bind; [apply alike_round_loop|intros states].
  apply alike_bind.
  { unfold learn_all. apply alike_bind; [apply alike_len_agents|intros n].
    apply alike_learn_from. }
  intros _. apply alike_bind; [apply alike_emit|intros _; apply alike_ret].
Qed.

(** ** The generator bodies *)

Lemma draw_state_body_headless (self : Game) (s : State) (w : World) :
  display self = false ->
  _draw_state_body self s w = (w, Done tt).
Proof. intros Hd. unfold _draw_state_body. by rewrite Hd. Qed.

Lemma draw_state_body_fails (self : Game) (s : State) (w : World) :
  display self = true -> self_screen self = None ->
  snd (_draw_state_body self s w) = Raised (AttributeError "screen").
Proof.
  intros Hd Hs. unfold _draw_state_body, read_screen. rewrite Hd, Hs.
  reflexivity.
Qed.

Lemma play_again_body_headless (fuel : nat) (self : Game) (w : World) :
  display self = false ->
  snd (_play_again_body env fuel self w) = Done (answers env (asked w)).
Proof. intros Hd. unfold _play_again_body. by rewrite Hd. Qed.

Lemma play_again_body_fails (fuel : nat) (self : Game) (w : World) :
  display self = true -> self_screen self = None ->
  snd (_play_again_body env fuel self w) = Raised (AttributeError "screen").
Proof.
  intros Hd Hs. unfold _play_again_body, read_screen. rewrite Hd, Hs.
  reflexivity.
Qed.

(** C9 (amended). [_draw_state], [_play_again] and [_run_display] are
    generator functions: a call returns the unstarted generator and leaves
    the world as it was.  Hence a round and a session add only driver events
    to the trace (nothing is drawn, the lock is never taken, the screen is
    never touched, no prompt is shown), and the outcome of [_run_round] is
    the same for every display flag, screen attribute, speed and screen
    argument.  [__init__] leaves [self.screen] unassigned and no method
    assigns it: the bodies of [_draw_state] and [_play_again], if iterated
    with [self.display] true, fail on reading it; with [self.display] false
    the first ends at once and the second returns the terminal's answer;
    the body of [_run_display] does not depend on [self] at all. *)
Theorem rendering_never_runs (fuel : nat) (self : Game) (speed : Z)
    (pause_on_turn : bool) (screen : option Screen) (s : State) (w : World) :
  _draw_state self s w = (w, Done (Unstarted (_draw_state_body self s)))
  /\ _play_again env fuel self w
     = (w, Done (Unstarted (_play_again_body env fuel self)))
  /\ _run_display env fuel self screen w
     = (w, Done (Unstarted (_run_display_body env fuel self screen)))
  /\ round_step w (fst (_run_round env fuel self speed pause_on_turn screen w))
  /\ (forall play_again,
        quiet_step w (fst (_run_game env fuel self screen play_again speed
                             pause_on_turn w)))
  /\ (forall self' speed' screen',
        game_type self' = game_type self ->
        snd (_run_round env fuel self' speed' pause_on_turn screen' w)
        = snd (_run_round env fuel self speed pause_on_turn screen w))
  /\ (forall (gt : GameType (State := State) (Action := Action) (Mem := Mem)) d,
        self_screen (Game_init gt d) = None)
  /\ (display self = true -> self_screen self = None ->
        snd (iterate (Unstarted (_draw_state_body self s)) w)
          = Raised (AttributeError "screen")
        /\ snd (iterate (Unstarted (_play_again_body env fuel self)) w)
          = Raised (AttributeError "screen"))
  /\ (display self = false ->
        iterate (Unstarted (_draw_state_body self s)) w = (w, Done tt)
        /\ snd (iterate (Unstarted (_play_again_body env fuel self)) w)
          = Done (answers env (asked w)))
  /\ (forall self',
        _run_display_body env fuel self' screen
        = _run_display_body env fuel self screen).
Proof.
  split; [reflexivity|]. split; [reflexivity|]. split; [reflexivity|].
  split; [apply steps_run_round|].
  split; [intros pa; apply steps_run_game|].
  split.
  { intros self' speed' screen' Hgt.
    apply (alike_run_round fuel self' self speed' speed pause_on_turn
             screen' screen Hgt w w), same_but_trace_refl. }
  split; [reflexivity|].
  split.
  { intros Hd Hs. simpl. split.
    - by apply draw_state_body_fails.
    - by apply play_again_body_fails. }
  split.
  { intros Hd. simpl. split.
    - by apply draw_state_body_headless.
    - by apply play_again_body_headless. }
  reflexivity.
Qed.

End EngineFacts.

(** * The engine run on the two small games *)

(** C1. With [play_again = 3] the session stops after one round: the first
    [len(games) < play_again] is already true.  With [play_again = 1] the
    test is false after every round, so the loop has no exit.  With a falsy
    [play_again] the session is one round. *)
Theorem run_game_fixed_count_three_plays_one_round :
  (let r := _run_game Toy.env 10 (Game_init (countdown_type 2) false) None
              (PyInt 3) 2 false (initial_world fair_players) in
   snd r = Done tt /\ games (fst r) = [[2; 1; 0]]%nat)
  /\ (forall fuel,
        snd (_run_game Toy.env fuel (Game_init (countdown_type 2) false) None
               (PyInt 1) 2 false (initial_world fair_players)) <> Done tt)
  /\ (let r := _run_game Toy.env 10 (Game_init (countdown_type 2) false) None
                 (PyBool false) 2 false (initial_world fair_players) in
      snd r = Done tt /\ games (fst r) = [[2; 1; 0]]%nat).
Proof.
  split; [|split].
  - vm_compute. split; reflexivity.
  - intros fuel. apply run_game_count_reached_never_stops; [done|].
    simpl. lia.
  - vm_compute. split; reflexivity.
Qed.

(** C2 on the ping-pong game: the round ends with the trajectory
    [Ping; Pong], of length 2, not with [Ping; Pong; Ping]. *)
Lemma two_state_cycle_three_states_counterexample :
  snd (_run_round Toy.env 10 (Game_init court_type false) 2 false None
         (initial_world fair_players)) = Done [Ping; Pong]
  /\ snd (_run_round Toy.env 10 (Game_init court_type false) 2 false None
            (initial_world fair_players)) <> Done [Ping; Pong; Ping]
  /\ length [Ping; Pong] <> 3%nat.
Proof. vm_compute. repeat split; discriminate. Qed.

Lemma scripted_reliable (script : list Move) :
  Forall (fun a => a = Go) script ->
  reliable (State := Court) (scripted script).
Proof.
  intros Hs. exists (Forall (fun a => a = Go)). split; [exact Hs|]. split.
  - intros m s Hm _. destruct m as [|a rest]; simpl.
    + exists Go, []. repeat split; [apply list_elem_of_here|constructor].
    + apply Forall_cons in Hm as [-> Hrest].
      exists Go, rest. repeat split; [apply list_elem_of_here|exact Hrest].
  - intros m ss pid Hm. simpl. by exists m.
Qed.

Lemma two_state_cycle_round_witness :
  exists fuel0, forall fuel, (fuel0 <= fuel)%nat ->
    exists w', _run_round Toy.env fuel (Game_init court_type false) 2 false
                 None (initial_world fair_players) = (w', Done [Ping; Pong]).
Proof.
  apply (two_state_cycle_round Toy.env Ping Pong).
  - discriminate.
  - reflexivity.
  - reflexivity.
  - intros a Ha. apply list_elem_of_singleton in Ha. by rewrite Ha.
  - intros a Ha. apply list_elem_of_singleton in Ha. by rewrite Ha.
  - reflexivity.
  - discriminate.
  - repeat constructor; apply scripted_reliable; constructor.
  - discriminate.
Defined.

(** C3. The session driver of a game with display, handed the screen and
    [speed = 1], on a clock that shows 7 ms per reading: the only wait is
    the [pygame.time.wait(0)] that ends the round, because [_run_game] hands
    no screen to [_run_round].  Given the screen, [_run_round] sleeps 43 ms
    after each turn and 100 ms after the round.  Whatever speed and screen
    [_run_game] is given, the session is the one of speed 2 without
    screen. *)
Theorem run_game_never_passes_screen :
  (let r := _run_game Toy.env 10 (Game_init (countdown_type 2) true)
              (Some (DisplayScreen 672 480)) PyNone 1 false
              (initial_world fair_players) in
   snd r = Done tt
   /\ games (fst r) = [[2; 1; 0]]%nat
   /\ List.filter is_time_wait (trace (fst r)) = [TimeWait 0])
  /\ List.filter is_time_wait
       (trace (fst (_run_round Toy.env 10 (Game_init (countdown_type 2) true)
                      1 false (Some (DisplayScreen 672 480))
                      (initial_world fair_players))))
     = [TimeWait 43; TimeWait 43; TimeWait 100]
  /\ (forall fuel screen speed,
        _run_game Toy.env fuel (Game_init (countdown_type 2) true) screen
          PyNone speed false (initial_world fair_players)
        = _run_game Toy.env fuel (Game_init (countdown_type 2) true) None
            PyNone 2 false (initial_world fair_players)).
Proof.
  split; [|split].
  - vm_compute. repeat split.
  - vm_compute. reflexivity.
  - intros fuel screen speed. apply run_game_ignores_speed.
Qed.

(** C6 on the countdown game with a first agent whose [learn] raises: the
    exception leaves [_run_round], no trajectory is returned, and the second
    agent's [learn] is never called. *)
Lemma learn_failure_propagates_counterexample :
  let r := _run_round Toy.env 10 (Game_init (countdown_type 2) false) 2 false
             None (initial_world faulty_players) in
  snd r = Raised (AgentError "learn failed")
  /\ trace (fst r)
     = [Decide 0 2; Decide 1 1; Learn 0 [2; 1; 0]]%nat
  /\ ~ In (Learn 1 [2; 1; 0]%nat) (trace (fst r)).
Proof.
  vm_compute. repeat split.
  intros [Hx|[Hx|[Hx|[]]]]; discriminate Hx.
Qed.

Lemma run_round_learn_calls_witness :
  let w := initial_world (State := nat) faulty_players in
  let w1 := fst (round_loop Toy.env 10 (Game_init (countdown_type 2) false)
                   0 false (-1) 2%nat [2%nat] w) in
  ((forall pid, (pid < length (agents w1))%nat ->
                learn_returns w1 [2; 1; 0]%nat pid) ->
   exists w2,
     _run_round Toy.env 10 (Game_init (countdown_type 2) false) 2 false None w
       = (w2, Done [2; 1; 0]%nat)
     /\ trace w2 = trace w1 ++ learn_calls 0 (length (agents w1)) [2; 1; 0]%nat
                           ++ [TimeWait 0])
  /\ (forall k e,
       (k < length (agents w1))%nat ->
       learn_raises w1 [2; 1; 0]%nat k e ->
       (forall pid, (pid < k)%nat -> learn_returns w1 [2; 1; 0]%nat pid) ->
       exists w2,
         _run_round Toy.env 10 (Game_init (countdown_type 2) false) 2 false
           None w = (w2, Raised e)
         /\ trace w2 = trace w1 ++ learn_calls 0 (S k) [2; 1; 0]%nat).
Proof.
  apply (run_round_learn_calls Toy.env 10 (Game_init (countdown_type 2) false)
           2 false None (initial_world faulty_players)).
  vm_compute. reflexivity.
Defined.

Lemma action_is_valid_rejects_exactly_witness :
  (fst (_action_is_valid 0%nat Go) = None
     <-> is_terminal 0%nat = true \/ Go ∉ actions 0%nat)
  /\ (fst (_action_is_valid 0%nat Go) <> None
     -> _action_is_valid 0%nat Go = (Some 0%nat, []))
  /\ (act_guarded (fun n _ => Nat.pred n) 0%nat Go = None
     <-> is_terminal 0%nat = true \/ Go ∉ actions 0%nat)
  /\ (act_guarded (fun n _ => Nat.pred n) 0%nat Go <> None
     -> act_guarded (fun n _ => Nat.pred n) 0%nat Go = Some 0%nat).
Proof.
  apply (action_is_valid_rejects_exactly (fun n _ => Nat.pred n) 0%nat Go).
Defined.

(** C9 on a headless game: [self.screen] is unassigned, and still the body
    of [_draw_state], when iterated, ends normally. *)
Lemma draw_state_body_headless_counterexample :
  let self := Game_init court_type false in
  let w := initial_world fair_players in
  self_screen self = None
  /\ exists g, _draw_state self Ping w = (w, Done g)
               /\ iterate g w = (w, Done tt)
               /\ forall e, snd (iterate g w) <> Raised e.
Proof.
  simpl. split; [reflexivity|].
  eexists. split; [reflexivity|]. split; [reflexivity|discriminate].
Qed.

Lemma rendering_never_runs_witness :
  snd (iterate (Unstarted (_draw_state_body (Game_init court_type true) Ping))
         (initial_world fair_players))
    = Raised (AttributeError "screen")
  /\ snd (iterate
            (Unstarted (_play_again_body Toy.env 5 (Game_init court_type true)))
            (initial_world fair_players))
    = Raised (AttributeError "screen").
Proof.
  destruct (rendering_never_runs Toy.env 5 (Game_init court_type true) 2 false
              None Ping (initial_world fair_players))
    as (_ & _ & _ & _ & _ & _ & _ & Hfail & _).
  apply Hfail; reflexivity.
Defined.

(** * Further properties of the drivers *)

Section RoundFacts.
Context {State Action Mem : Type} `{GameState State Action}.
Variable env : Env.

Abbreviation World := (World (State := State) (Action := Action) (Mem := Mem)).
Abbreviation M := (M (State := State) (Action := Action) (Mem := Mem)).
Abbreviation Event := (Event (State := State)).

Lemma bind_inv_done {A B} (m : M A) (k : A -> M B) (w w' : World) (b : B) :
  bind m k w = (w', Done b) ->
  exists w1 a, m w = (w1, Done a) /\ k a w1 = (w', Done b).
Proof.
  unfold bind. destruct (m w) as [w1 [a| |]]; [|done|done].
  intros Hk. by exists w1, a.
Qed.

Lemma decide_loop_result (fuel i : nat) (s : State) (w w' : World)
    (r : State * Z) :
  decide_loop env fuel i s w = (w', Done r) ->
  exists a, act s a = Some (fst r).
Proof.
  revert w. induction fuel as [|n IH]; intros w; simpl; [done|].
  intros Hrun.
  apply bind_inv_done in Hrun as (w1 & t & _ & Hrun).
  apply bind_inv_done in Hrun as (w2 & ag & _ & Hrun).
  apply bind_inv_done in Hrun as (w3 & a & _ & Hrun).
  apply bind_inv_done in Hrun as (w4 & [] & _ & Hrun).
  destruct (act s a) as [s'|] eqn:Hact.
  - injection Hrun as _ <-. by exists a.
  - by eapply IH.
Qed.

Lemma linked_snoc (states : list State) (state s' : State) (a : Action) :
  linked states -> last states = Some state ->
  is_terminal state = false -> act state a = Some s' ->
  linked (states ++ [s']).
Proof.
  intros Hl Hlast Ht Ha i x y Hx Hy.
  apply lookup_snoc_Some in Hy as [[Hi Hy]|[Hi <-]].
  - rewrite lookup_app_l in Hx by lia. by eapply Hl.
  - rewrite lookup_app_l in Hx by lia.
    rewrite last_lookup, <- Hi in Hlast. simpl in Hlast.
    rewrite Hx in Hlast. injection Hlast as ->. split; [done|by exists a].
Qed.

Lemma round_loop_shape (fuel : nat) (self : Game) (turn_wait : Z)
    (pause_on_turn : bool) :
  forall (i : Z) (state : State) (states : list State) (w w' : World)
         (res : list State),
    NoDup states -> last states = Some state -> linked states ->
    round_loop env fuel self turn_wait pause_on_turn i state states w
      = (w', Done res) ->
    NoDup res /\ linked res /\ head res = head states
    /\ exists final, last res = Some final /\ stopped res final.
Proof.
  induction fuel as [|n IH];
    intros i state states w w' res Hnd Hlast Hl; simpl; [done|].
  destruct (is_terminal state) eqn:Ht.
  { intros [= _ <-]. split; [done|]. split; [done|]. split; [done|].
    exists state. split; [done|by left]. }
  intros Hrun.
  apply bind_inv_done in Hrun as (w1 & j & _ & Hrun).
  apply bind_inv_done in Hrun as (w2 & r & Hdec & Hrun).
  apply bind_inv_done in Hrun as (w3 & g & _ & Hrun).
  destruct (decide_loop_result _ _ _ _ _ _ Hdec) as [a Ha].
  destruct (bool_decide (fst r ∈ states)) eqn:Hin.
  - apply bool_decide_eq_true in Hin.
    apply bind_inv_done in Hrun as (w4 & [] & _ & Hrun).
    injection Hrun as _ <-. split; [done|]. split; [done|]. split; [done|].
    exists state. split; [done|]. right. by exists a, (fst r).
  - apply bool_decide_eq_false in Hin.
    apply bind_inv_done in Hrun as (w4 & end_t & _ & Hrun).
    apply bind_inv_done in Hrun as (w5 & [] & _ & Hrun).
    apply bind_inv_done in Hrun as (w6 & [] & _ & Hrun).
    apply IH in Hrun as (Hnd' & Hl' & Hhead & Hfinal).
    + split; [done|]. split; [done|]. split; [|done]. rewrite Hhead.
      destruct states; [done|reflexivity].
    + apply NoDup_app. repeat split; [done| |apply NoDup_singleton].
      intros x Hx Hx'. apply list_elem_of_singleton in Hx'. by subst.
    + apply last_snoc.
    + by eapply linked_snoc.
Qed.

(** X1. A trajectory returned by [_run_round] starts with the initial state
    of the game type, holds no state twice, and is a chain of moves: each
    state but the last is not terminal and some action leads from it to the
    next one. *)
Theorem run_round_trajectory_shape (fuel : nat) (self : Game) (speed : Z)
    (pause_on_turn : bool) (screen : option Screen) (w w' : World)
    (states : list State) :
  _run_round env fuel self speed pause_on_turn screen w = (w', Done states) ->
  head states = Some (init (game_type self) (agents w))
  /\ NoDup states
  /\ linked states.
Proof.
  unfold _run_round. intros Hrun.
  apply bind_inv_done in Hrun as (w1 & ags & [= <- <-] & Hrun).
  apply bind_inv_done in Hrun as (w2 & g & [= <- _] & Hrun).
  apply bind_inv_done in Hrun as (w3 & res & Hloop & Hrun).
  apply bind_inv_done in Hrun as (w4 & [] & _ & Hrun).
  apply bind_inv_done in Hrun as (w5 & [] & _ & Hrun).
  injection Hrun as _ <-.
  apply round_loop_shape in Hloop as (Hnd & Hl & Hhead & _).
  - by rewrite Hhead.
  - apply NoDup_singleton.
  - reflexivity.
  - intros i s s' _ Hs'. destruct i; discriminate Hs'.
Qed.

(** X2. The last state of a trajectory returned by [_run_round] is terminal,
    or one of its moves leads to a state that is already in the trajectory
    (the repeat that ended the round). *)
Theorem run_round_stops_for_a_reason (fuel : nat) (self : Game) (speed : Z)
    (pause_on_turn : bool) (screen : option Screen) (w w' : World)
    (states : list State) :
  _run_round env fuel self speed pause_on_turn screen w = (w', Done states) ->
  exists final, last states = Some final /\ stopped states final.
Proof.
  unfold _run_round. intros Hrun.
  apply bind_inv_done in Hrun as (w1 & ags & [= <- <-] & Hrun).
  apply bind_inv_done in Hrun as (w2 & g & [= <- _] & Hrun).
  apply bind_inv_done in Hrun as (w3 & res & Hloop & Hrun).
  apply bind_inv_done in Hrun as (w4 & [] & _ & Hrun).
  apply bind_inv_done in Hrun as (w5 & [] & _ & Hrun).
  injection Hrun as _ <-.
  apply round_loop_shape in Hloop as (_ & _ & _ & Hfinal).
  - exact Hfinal.
  - apply NoDup_singleton.
  - reflexivity.
  - intros i s s' _ Hs'. destruct i; discriminate Hs'.
Qed.

(** ** Rounds of finite games end *)

Lemma decide_loop_legal (n i : nat) (s : State) (w : World) :
  cooperative w ->
  is_terminal s = false ->
  (i < length (agents w))%nat ->
  (forall a, a ∈ actions s -> is_Some (act s a)) ->
  exists w' s',
    decide_loop env (S n) i s w = (w', Done (s', clock env (ticks w)))
    /\ cooperative w'
    /\ length (agents w') = length (agents w).
Proof.
  intros Hco Hlive Hi Hact.
  destruct (lookup_lt_is_Some_2 (agents w) i Hi) as [ag Hag].
  pose proof (Forall_lookup_1 _ _ _ _ Hco Hag) as (Inv & Hinv & Hdec & Hlearn).
  destruct (Hdec (Agent.memory ag) s Hinv Hlive) as (a & m & Hd & Hin & Hm).
  destruct (Hact a Hin) as [s' Hs'].
  simpl.
  unfold bind, get_agent, call_decide, when, emit, set_agent, ret, raise.
  simpl. rewrite Hag. simpl. rewrite Hd. simpl. rewrite Hs'. simpl.
  assert (Hco' : Forall reliable (<[i := Agent.set_memory ag m]> (agents w))).
  { apply Forall_insert; [exact Hco|]. by apply (reliable_set_memory ag Inv). }
  destruct (truthy s'); simpl; eexists _, s'; (split; [reflexivity|]);
    unfold cooperative; simpl; rewrite length_insert; done.
Qed.

Section FiniteGames.
Context `{!Finite State}.
Hypothesis legal_moves_accepted :
  forall s a, is_terminal s = false -> a ∈ actions s -> is_Some (act s a).

Lemma NoDup_length_card (l : list State) : NoDup l -> (length l <= card State)%nat.
Proof.
  intros Hnd. unfold card. apply submseteq_length.
  apply NoDup_submseteq; [exact Hnd|]. intros x _. apply elem_of_enum.
Qed.

Lemma round_loop_ends (self : Game) (turn_wait : Z) :
  forall (fuel m : nat) (i : Z) (state : State) (states : list State)
         (w : World),
    cooperative w -> agents w <> [] -> NoDup states ->
    (card State <= length states + m)%nat ->
    (m + 2 <= fuel)%nat ->
    exists w' res,
      round_loop env fuel self turn_wait false i state states w
        = (w', Done res)
      /\ cooperative w'.
Proof.
  induction fuel as [|n IH]; intros m i state states w Hco Hne Hnd Hm Hfuel;
    [lia|]. simpl.
  destruct (is_terminal state) eqn:Ht; [by exists w, states|].
  destruct (next_index_in_range i w Hne) as (j & Hj & Hlt & _).
  rewrite (bind_done _ _ _ _ _ Hj).
  destruct n as [|n']; [lia|].
  destruct (decide_loop_legal n' (Z.to_nat j) state w Hco Ht Hlt)
    as (w1 & s' & Hd & Hco1 & Hlen1).
  { intros a Ha. by apply legal_moves_accepted. }
  rewrite (bind_done _ _ _ _ _ Hd). cbn [fst snd].
  rewrite (bind_done _ _ _ _ _ (draw_state_call self s' w1)).
  destruct (bool_decide (s' ∈ states)) eqn:Hin.
  - unfold bind, emit, ret. simpl. by eexists _, _.
  - apply bool_decide_eq_false in Hin.
    assert (Hnd' : NoDup (states ++ [s'])).
    { apply NoDup_app. repeat split; [done| |apply NoDup_singleton].
      intros x Hx Hx'. apply list_elem_of_singleton in Hx'. by subst. }
    pose proof (NoDup_length_card _ Hnd') as Hcard.
    rewrite length_app in Hcard. simpl in Hcard.
    unfold bind at 1. cbn [now_ms fst snd].
    unfold bind at 1. cbn [when ret].
    match goal with |- context [when ?c ?e] =>
      assert (Hq : exists w3, when c e (fst (now_ms env w1)) = (w3, Done tt)
                              /\ agents w3 = agents w1)
        by (destruct c; simpl; by eexists)
    end.
    destruct Hq as (w3 & Hw3 & Hag3). simpl in Hw3.
    rewrite (bind_done _ _ _ _ _ Hw3).
    apply (IH (pred m)).
    + unfold cooperative. by rewrite Hag3.
    + rewrite Hag3. intros Hnil. apply Hne. apply length_zero_iff_nil.
      rewrite <- Hlen1, Hnil. reflexivity.
    + exact Hnd'.
    + rewrite length_app. simpl. lia.
    + lia.
Qed.

(** X3. On a game with finitely many states whose legal moves are always
    accepted, played without [pause_on_turn] by agents that keep to their
    contract, every round ends: with fuel above the number of states
    [_run_round] returns a trajectory. *)
Theorem finite_game_round_ends (self : Game) (speed : Z)
    (screen : option Screen) (w : World) (fuel : nat) :
  cooperative w ->
  agents w <> [] ->
  (card State + 1 <= fuel)%nat ->
  exists w' states,
    _run_round env fuel self speed false screen w = (w', Done states).
Proof.
  intros Hco Hne Hfuel.
  pose proof (NoDup_length_card [init (game_type self) (agents w)]
                (NoDup_singleton _)) as Hcard. simpl in Hcard.
  destruct (round_loop_ends self (fst (wait_budgets screen speed)) fuel
              (card State - 1) (-1) (init (game_type self) (agents w))
              [init (game_type self) (agents w)] w)
    as (w1 & res & Hloop & Hco1);
    [done|done|apply NoDup_singleton|simpl; lia|lia|].
  rewrite (run_round_after_loop _ _ _ _ _ _ _ _ _ Hloop).
  destruct (learn_all_cooperative res w1 Hco1) as (w2 & Hlearn).
  unfold learn_all, bind, len_agents in Hlearn. simpl in Hlearn.
  rewrite Hlearn. by eexists _, _.
Qed.

End FiniteGames.

(** ** Edge cases of a round *)

Lemma run_round_unfold (fuel : nat) (self : Game) (speed : Z)
    (pause_on_turn : bool) (screen : option Screen) (w : World) :
  _run_round env fuel self speed pause_on_turn screen w
  = (states <- round_loop env fuel self (fst (wait_budgets screen speed))
                 pause_on_turn (-1) (init (game_type self) (agents w))
                 [init (game_type self) (agents w)] ;;
     learn_all states ;;;
     emit (TimeWait (snd (wait_budgets screen speed))) ;;;
     ret states) w.
Proof. reflexivity. Qed.

Lemma learn_from_keeps_clock (count pid : nat) (states : list State)
    (w w' : World) :
  learn_from pid count states w = (w', Done tt) -> ticks w' = ticks w.
Proof.
  revert pid w. induction count as [|c IH]; intros pid w; simpl.
  - by intros [= <-].
  - intros Hrun.
    apply bind_inv_done in Hrun as (w2 & ag & Hget & Hrun).
    apply bind_inv_done in Hrun as (w3 & [] & Hcall & Hrun).
    apply IH in Hrun. rewrite Hrun.
    unfold get_agent in Hget. destruct (agents w !! pid) as [ag'|]; [|done].
    injection Hget as <- ->.
    unfold call_learn, bind, emit, set_agent, raise in Hcall.
    simpl in Hcall.
    destruct (Agent.learn ag (Agent.memory ag) states pid); [done|].
    by injection Hcall as <-.
Qed.

(** X4. When the initial state is already terminal, the round consults no
    agent's [decide] and reads no clock: it calls every agent's [learn] with
    the one-state trajectory, waits [round_wait] and returns that
    trajectory. *)
Theorem terminal_start_round (fuel : nat) (self : Game) (speed : Z)
    (pause_on_turn : bool) (screen : option Screen) (w : World) :
  is_terminal (init (game_type self) (agents w)) = true ->
  (forall pid, (pid < length (agents w))%nat ->
               learn_returns w [init (game_type self) (agents w)] pid) ->
  (1 <= fuel)%nat ->
  exists w',
    _run_round env fuel self speed pause_on_turn screen w
      = (w', Done [init (game_type self) (agents w)])
    /\ trace w'
       = trace w
         ++ learn_calls 0 (length (agents w))
              [init (game_type self) (agents w)]
         ++ [TimeWait (snd (wait_budgets screen speed))]
    /\ ticks w' = ticks w.
Proof.
  intros Ht Hok Hfuel. destruct fuel as [|n]; [lia|].
  rewrite run_round_unfold. cbn [round_loop]. rewrite Ht.
  unfold bind at 1. cbn [ret].
  destruct (learn_from_all_return (length (agents w)) 0
              [init (game_type self) (agents w)] w)
    as (w1 & Hrun & Htr); [done|by intros; apply Hok|].
  pose proof (learn_from_keeps_clock _ _ _ _ _ Hrun) as Hticks.
  unfold learn_all, bind, len_agents. simpl. rewrite Hrun. simpl.
  eexists. split; [reflexivity|]. simpl. split; [|exact Hticks].
  by rewrite Htr, <- app_assoc.
Qed.

(** X5. With an empty agent list a round whose initial state is not terminal
    fails at once with [ZeroDivisionError] (the turn index is taken modulo
    the number of agents), before anything else happens; when the initial
    state is terminal the round only waits [round_wait] and returns the
    one-state trajectory. *)
Theorem round_without_agents (fuel : nat) (self : Game) (speed : Z)
    (pause_on_turn : bool) (screen : option Screen) (w : World) :
  agents w = [] ->
  (1 <= fuel)%nat ->
  (is_terminal (init (game_type self) []) = false ->
   _run_round env fuel self speed pause_on_turn screen w
     = (w, Raised ZeroDivisionError))
  /\ (is_terminal (init (game_type self) []) = true ->
      _run_round env fuel self speed pause_on_turn screen w
        = (fst (emit (TimeWait (snd (wait_budgets screen speed))) w),
           Done [init (game_type self) []])).
Proof.
  intros Hag Hfuel. destruct fuel as [|n]; [lia|].
  rewrite run_round_unfold, Hag. cbn [round_loop].
  split; intros Ht; rewrite Ht.
  - assert (Hidx : next_index (-1) w = (w, Raised ZeroDivisionError)).
    { unfold next_index, bind, len_agents. by rewrite Hag. }
    unfold bind at 1. by rewrite (bind_raised _ _ _ _ _ Hidx).
  - assert (Hlearn : learn_all [init (game_type self) []] w = (w, Done tt)).
    { unfold learn_all, bind, len_agents. by rewrite Hag. }
    unfold bind at 1. cbn [ret]. by rewrite (bind_done _ _ _ _ _ Hlearn).
Qed.

(** X6. An exception raised by [decide] is not caught: when the first agent
    raises on the initial state (as the base class [Agent] does with
    [NotImplementedError]), it leaves [_run_round] right after that call, no
    [learn] is called and no trajectory is returned. *)
Theorem decide_exception_leaves_round (fuel : nat) (self : Game) (speed : Z)
    (pause_on_turn : bool) (screen : option Screen) (w : World)
    (ag : Agent.t State Action Mem) (e : Exn) :
  agents w !! 0%nat = Some ag ->
  Agent.decide ag (Agent.memory ag) (init (game_type self) (agents w))
    = inl e ->
  is_terminal (init (game_type self) (agents w)) = false ->
  (2 <= fuel)%nat ->
  exists w',
    _run_round env fuel self speed pause_on_turn screen w = (w', Raised e)
    /\ trace w' = trace w ++ [Decide 0 (init (game_type self) (agents w))]
    /\ agents w' = agents w.
Proof.
  intros Hag Hd Ht Hfuel. destruct fuel as [|[|n]]; [lia|lia|].
  set (s0 := init (game_type self) (agents w)) in *.
  assert (Hne : agents w <> []) by (intros Hnil; by rewrite Hnil in Hag).
  destruct (next_index_in_range (-1) w Hne) as (j & Hj & _ & Hj0).
  rewrite (Hj0 eq_refl) in Hj.
  assert (Hdl : exists w',
             decide_loop env (S n) 0 s0 w = (w', Raised e)
             /\ trace w' = trace w ++ [Decide 0 s0]
             /\ agents w' = agents w).
  { simpl. unfold bind, now_ms, get_agent, call_decide, emit, raise. simpl.
    rewrite Hag. simpl. rewrite Hd. by eexists. }
  destruct Hdl as (w' & Hdl & Htr & Hags).
  exists w'. split; [|by split].
  rewrite run_round_unfold. fold s0.
  apply bind_raised. cbn [round_loop]. rewrite Ht.
  rewrite (bind_done _ _ _ _ _ Hj). by apply bind_raised.
Qed.

(** ** Sessions *)

Lemma run_headless_unfold (fuel : nat) (self : Game) (play_again : PyVal)
    (speed : Z) (pause_on_turn : bool) (w : World) :
  run env fuel self false play_again speed pause_on_turn w
  = match _run_game env fuel self None play_again speed pause_on_turn
            (fst (new_games w)) with
    | (w1, OutOfFuel) => (w1, OutOfFuel)
    | (w1, _) => (w1, Done (games w1))
    end.
Proof.
  unfold run, bind, ret, in_thread, get_games. cbn [new_games fst].
  match goal with |- context [_run_game ?a ?b ?c ?d ?f ?g ?h ?x] =>
    destruct (_run_game a b c d f g h x) as [w1 [[]| |]]
  end; reflexivity.
Qed.

(** X7. [run] never raises: an exception that ends the game thread stays in
    that thread.  Headless, [run] then returns the rounds collected before
    the failure. *)
Theorem run_never_raises (fuel : nat) (self : Game) (display : bool)
    (play_again : PyVal) (speed : Z) (pause_on_turn : bool) (w : World) :
  (forall e,
     snd (run env fuel self display play_again speed pause_on_turn w)
     <> Raised e)
  /\ (forall w1 e,
        _run_game env fuel self None play_again speed pause_on_turn
          (fst (new_games w)) = (w1, Raised e) ->
        run env fuel self false play_again speed pause_on_turn w
        = (w1, Done (games w1))).
Proof.
  split.
  - intros e. unfold run.
    destruct display; unfold bind, emit, new_games, ret, in_thread,
      _run_display, call_generator_function, get_games; simpl;
    match goal with |- context [_run_game ?a ?b ?c ?d ?f ?g ?h ?x] =>
      destruct (_run_game a b c d f g h x) as [w1 [[]| |]]
    end; simpl; done.
  - intros w1 e Hrun. by rewrite run_headless_unfold, Hrun.
Qed.

(** X8. The [speed] given to [run] has no effect on the session: whatever
    its value, [run] ends in the same world with the same result. *)
Theorem run_ignores_speed (fuel : nat) (self : Game) (display : bool)
    (play_again : PyVal) (speed speed' : Z) (pause_on_turn : bool)
    (w : World) :
  run env fuel self display play_again speed pause_on_turn w
  = run env fuel self display play_again speed' pause_on_turn w.
Proof.
  unfold run.
  apply bind_ext; [reflexivity|intros screen w1].
  apply bind_ext; [reflexivity|intros _ w2].
  apply bind_ext; [|reflexivity].
  destruct display.
  - apply bind_ext; [|reflexivity]. unfold start_thread.
    by rewrite (run_game_ignores_speed env fuel self screen screen play_again
                  speed speed' pause_on_turn w2).
  - unfold in_thread.
    by rewrite (run_game_ignores_speed env fuel self screen screen play_again
                  speed speed' pause_on_turn w2).
Qed.

(** X9. With a falsy [play_again] a headless [run] plays exactly one round
    and returns the list holding that round's trajectory, whatever the
    shared list held before. *)
Theorem run_once_when_falsy (n : nat) (self : Game) (play_again : PyVal)
    (speed : Z) (pause_on_turn : bool) (w w1 : World) (t : list State) :
  py_truth play_again = false ->
  _run_round env n self speed pause_on_turn None (fst (new_games w))
    = (w1, Done t) ->
  run env (S n) self false play_again speed pause_on_turn w
  = (fst (append_game t w1), Done [t]).
Proof.
  intros Hf Hr.
  pose proof (steps_run_round env n self speed pause_on_turn None
                (fst (new_games w))) as [Hg _].
  rewrite Hr in Hg. simpl in Hg.
  pose proof (run_game_never_one_round env n self None play_again speed
                pause_on_turn _ _ _ Hf Hr) as Hgame.
  rewrite run_headless_unfold, Hgame. simpl in *. by rewrite Hg.
Qed.

(** X10. With an integer [play_again = k] other than 0, [_run_game] breaks
    after a round exactly when the rounds collected so far are fewer than
    [k]: it stops after its first round when [k] exceeds the size the list
    then has, and never returns when [k] does not. *)
Theorem integer_play_again_rounds (n : nat) (self : Game)
    (screen : option Screen) (k : Z) (speed : Z) (pause_on_turn : bool)
    (w : World) :
  k <> 0 ->
  (k <= Z.of_nat (S (length (games w))) ->
   forall fuel,
     snd (_run_game env fuel self screen (PyInt k) speed pause_on_turn w)
     <> Done tt)
  /\ (Z.of_nat (S (length (games w))) < k ->
      forall w1 t,
        _run_round env n self speed pause_on_turn None w = (w1, Done t) ->
        _run_game env (S n) self screen (PyInt k) speed pause_on_turn w
        = (fst (append_game t w1), Done tt)
        /\ games (fst (append_game t w1)) = games w ++ [t]).
Proof.
  intros Hk. split.
  - intros Hle fuel. by apply run_game_count_reached_never_stops.
  - intros Hlt w1 t Hr. split.
    + by apply run_game_count_stops_early.
    + pose proof (steps_run_round env n self speed pause_on_turn None w)
        as [Hg _].
      rewrite Hr in Hg. simpl in *. by rewrite Hg.
Qed.

(** ** The keyboard loops *)

Lemma wait_yn_answer (d : nat) :
  forall (fuel : nat) (w : World) (b : bool),
    (forall j, (j < d)%nat -> key_answer (keyboard env (polled w + j)) = None) ->
    key_answer (keyboard env (polled w + d)) = Some b ->
    (d < fuel)%nat ->
    exists w', wait_yn env fuel w = (w', Done b)
               /\ polled w' = (polled w + d + 1)%nat
               /\ agents w' = agents w /\ games w' = games w.
Proof.
  induction d as [|d IH]; intros fuel w b Hskip Hkey Hlt;
    (destruct fuel as [|n]; [lia|]); simpl;
    unfold bind, emit, event_wait; simpl.
  - rewrite Nat.add_0_r in Hkey.
    destruct (keyboard env (polled w)) as [[| | |]| |]; simpl in Hkey;
      try discriminate Hkey; injection Hkey as <-;
      eexists; (split; [reflexivity|]); simpl; repeat split; lia.
  - pose proof (Hskip 0%nat ltac:(lia)) as H0. rewrite Nat.add_0_r in H0.
    destruct (keyboard env (polled w)) as [[| | |]| |]; simpl in H0;
      try discriminate H0;
      match goal with |- context [wait_yn env n ?w1] =>
        destruct (IH n w1 b) as (w' & -> & Hp & Ha & Hg);
          [ simpl; intros j Hj;
            match goal with |- context [keyboard env ?k] =>
              replace k with (polled w + S j)%nat by lia end;
            apply Hskip; lia
          | simpl;
            match goal with |- context [keyboard env ?k] =>
              replace k with (polled w + S d)%nat by lia end;
            exact Hkey
          | lia
          | exists w'; simpl in *; repeat split; [lia|done|done] ]
      end.
Qed.

(** X11. The rendered prompt: with display on and [self.screen] set, the
    body of [_play_again] ignores every event that is not a [y] or [n] key
    press and answers with the first one that is, [True] for [y] and
    [False] for [n]. *)
Theorem play_again_prompt_answer (fuel d : nat) (self : Game) (scr : Screen)
    (w : World) (b : bool) :
  display self = true ->
  self_screen self = Some scr ->
  (forall j, (j < d)%nat -> key_answer (keyboard env (polled w + j)) = None) ->
  key_answer (keyboard env (polled w + d)) = Some b ->
  (d < fuel)%nat ->
  exists w', _play_again_body env fuel self w = (w', Done b)
             /\ polled w' = (polled w + d + 1)%nat.
Proof.
  intros Hd Hs Hskip Hkey Hlt.
  unfold _play_again_body, read_screen. rewrite Hd, Hs. simpl.
  destruct scr as [width height].
  unfold bind, emit, ret, with_screen_lock. simpl.
  match goal with |- context [wait_yn env fuel ?w1] =>
    destruct (wait_yn_answer d fuel w1 b) as (w' & -> & Hp & _); try done
  end.
  by exists w'.
Qed.

(** X12. The [pause_on_turn] loop discards every event until the first
    space key press, which ends it: the events up to and including that one
    are consumed, nothing else in the world changes but the trace. *)
Theorem pause_loop_waits_for_space (d : nat) :
  forall (fuel : nat) (w : World),
    (forall j, (j < d)%nat -> is_space (keyboard env (polled w + j)) = false) ->
    is_space (keyboard env (polled w + d)) = true ->
    (d < fuel)%nat ->
    exists w', pause_loop env fuel w = (w', Done tt)
               /\ polled w' = (polled w + d + 1)%nat
               /\ agents w' = agents w /\ games w' = games w
               /\ ticks w' = ticks w /\ asked w' = asked w.
Proof.
  induction d as [|d IH]; intros fuel w Hskip Hkey Hlt;
    (destruct fuel as [|n]; [lia|]); simpl;
    unfold bind, emit, event_wait; simpl.
  - rewrite Nat.add_0_r in Hkey.
    destruct (keyboard env (polled w)) as [[| | |]| |]; simpl in Hkey;
      try discriminate Hkey.
    eexists. split; [reflexivity|]. simpl. repeat split; lia.
  - pose proof (Hskip 0%nat ltac:(lia)) as H0. rewrite Nat.add_0_r in H0.
    destruct (keyboard env (polled w)) as [[| | |]| |]; simpl in H0;
      try discriminate H0;
      match goal with |- context [pause_loop env n ?w1] =>
        destruct (IH n w1) as (w' & -> & Hp & Ha & Hg & Ht & Hk);
          [ simpl; intros j Hj;
            match goal with |- context [keyboard env ?k] =>
              replace k with (polled w + S j)%nat by lia end;
            apply Hskip; lia
          | simpl;
            match goal with |- context [keyboard env ?k] =>
              replace k with (polled w + S d)%nat by lia end;
            exact Hkey
          | lia
          | exists w'; simpl in *; repeat split; [lia|done..] ]
      end.
Qed.

(** ** Sleeping between turns *)

Abbreviation no_sleep_step :=
  (no_sleep_step (State := State) (Action := Action) (Mem := Mem)).

Lemma no_sleep_refl (w : World) : no_sleep_step w w.
Proof. exists []. split; [by rewrite app_nil_r|constructor]. Qed.

Lemma no_sleep_trans (w1 w2 w3 : World) :
  no_sleep_step w1 w2 -> no_sleep_step w2 w3 -> no_sleep_step w1 w3.
Proof.
  intros (e1 & He1 & Hf1) (e2 & He2 & Hf2). exists (e1 ++ e2). split.
  - by rewrite He2, He1, app_assoc.
  - by apply Forall_app.
Qed.

Ltac quiet_primitive :=
  intros w; simpl;
  first [ exists []; split; [by rewrite app_nil_r|constructor]
        | eexists [_]; split; [reflexivity|by repeat constructor] ].

Ltac calm_bind :=
  apply (steps_bind no_sleep_step no_sleep_trans); [|intros ?].
Tactic Notation "calm_bind" "as" simple_intropattern(x) :=
  apply (steps_bind no_sleep_step no_sleep_trans); [|intros x].

Lemma calm_emit (e : Event) :
  match e with TimeWait _ => False | _ => True end ->
  steps no_sleep_step (emit e).
Proof. intros He. quiet_primitive. Qed.

Lemma calm_now_ms : steps no_sleep_step (now_ms env).
Proof. quiet_primitive. Qed.

Lemma calm_event_wait : steps no_sleep_step (event_wait env).
Proof. quiet_primitive. Qed.

Lemma calm_set_agent (i : nat) (a : Agent.t State Action Mem) :
  steps no_sleep_step (set_agent i a).
Proof. quiet_primitive. Qed.

Lemma calm_get_agent (i : nat) : steps no_sleep_step (get_agent i).
Proof.
  intros w. unfold get_agent. destruct (agents w !! i); apply no_sleep_refl.
Qed.

Lemma calm_ret {A} (a : A) : steps no_sleep_step (ret a).
Proof. apply steps_ret, no_sleep_refl. Qed.

Lemma calm_decide_loop (fuel i : nat) (s : State) :
  steps no_sleep_step (decide_loop env fuel i s).
Proof.
  induction fuel as [|n IH]; simpl.
  - apply steps_out_of_fuel, no_sleep_refl.
  - calm_bind; [apply calm_now_ms|].
    calm_bind as agent; [apply calm_get_agent|].
    calm_bind as action.
    { unfold call_decide. calm_bind; [by apply calm_emit|].
      destruct (Agent.decide agent (Agent.memory agent) s) as [e|[move m]].
      - apply steps_raise, no_sleep_refl.
      - calm_bind; [apply calm_set_agent|apply calm_ret]. }
    calm_bind.
    { apply steps_when; [apply no_sleep_refl|by apply calm_emit]. }
    destruct (act s action); [apply calm_ret|exact IH].
Qed.

Lemma calm_pause_loop (fuel : nat) : steps no_sleep_step (pause_loop env fuel).
Proof.
  induction fuel as [|n IH]; simpl.
  - apply steps_out_of_fuel, no_sleep_refl.
  - calm_bind; [by apply calm_emit|].
    calm_bind as ev; [apply calm_event_wait|].
    destruct ev as [[| | |]| |]; try exact IH. apply calm_ret.
Qed.

Lemma calm_round_loop (fuel : nat) (self : Game) (turn_wait : Z)
    (pause_on_turn : bool) :
  display self = false ->
  forall (i : Z) (s : State) (states : list State),
    steps no_sleep_step
      (round_loop env fuel self turn_wait pause_on_turn i s states).
Proof.
  intros Hd. induction fuel as [|n IH]; intros i s states; simpl.
  - apply steps_out_of_fuel, no_sleep_refl.
  - destruct (is_terminal s); [apply calm_ret|].
    calm_bind as j.
    { intros w. unfold next_index, bind, len_agents. simpl.
      destruct (length (agents w) =? 0)%nat; apply no_sleep_refl. }
    calm_bind as r; [apply calm_decide_loop|].
    calm_bind; [intros w; apply no_sleep_refl|].
    destruct (bool_decide _).
    + calm_bind; [by apply calm_emit|apply calm_ret].
    + calm_bind as end_t; [apply calm_now_ms|].
      calm_bind.
      { apply steps_when; [apply no_sleep_refl|apply calm_pause_loop]. }
      calm_bind; [|apply IH].
      rewrite Hd, andb_false_r. apply calm_ret.
Qed.

Lemma calm_learn_from (count : nat) (states : list State) :
  forall pid, steps no_sleep_step (learn_from pid count states).
Proof.
  induction count as [|c IH]; intros pid; simpl; [apply calm_ret|].
  calm_bind as agent; [apply calm_get_agent|].
  calm_bind; [|apply IH].
  unfold call_learn. calm_bind; [by apply calm_emit|].
  destruct (Agent.learn agent (Agent.memory agent) states pid) as [e|m].
  - apply steps_raise, no_sleep_refl.
  - apply calm_set_agent.
Qed.

Lemma filter_no_sleep (evs : list Event) :
  Forall (fun e => match e with TimeWait _ => False | _ => True end) evs ->
  List.filter is_time_wait evs = [].
Proof.
  induction 1 as [|e evs He _ IH]; [done|]. simpl.
  destruct e; simpl; try done.
Qed.

(** X13. With [self.display] false a round never sleeps between turns,
    whatever the speed and the screen it is given: the only timed wait it
    makes is the [round_wait] one that precedes a normal return. *)
Theorem headless_round_never_sleeps (fuel : nat) (self : Game) (speed : Z)
    (pause_on_turn : bool) (screen : option Screen) (w : World) :
  display self = false ->
  exists evs,
    trace (fst (_run_round env fuel self speed pause_on_turn screen w))
      = trace w ++ evs
    /\ List.filter is_time_wait evs
       = match snd (_run_round env fuel self speed pause_on_turn screen w) with
         | Done _ => [TimeWait (snd (wait_budgets screen speed))]
         | _ => []
         end.
Proof.
  intros Hd. rewrite run_round_unfold.
  pose proof (calm_round_loop fuel self (fst (wait_budgets screen speed))
                pause_on_turn Hd (-1) (init (game_type self) (agents w))
                [init (game_type self) (agents w)] w) as (e1 & He1 & Hf1).
  destruct (round_loop env fuel self (fst (wait_budgets screen speed))
              pause_on_turn (-1) (init (game_type self) (agents w))
              [init (game_type self) (agents w)] w) as [w1 [states| |]]
    eqn:Hloop; simpl in He1.
  2:{ rewrite (bind_raised _ _ _ _ _ Hloop). exists e1.
      split; [done|by apply filter_no_sleep]. }
  2:{ rewrite (bind_out_of_fuel _ _ _ _ Hloop). exists e1.
      split; [done|by apply filter_no_sleep]. }
  rewrite (bind_done _ _ _ _ _ Hloop).
  assert (Hl : steps no_sleep_step (learn_all states)).
  { unfold learn_all. calm_bind as n; [intros w0; apply no_sleep_refl|].
    apply calm_learn_from. }
  destruct (Hl w1) as (e2 & He2 & Hf2).
  destruct (learn_all states w1) as [w2 [[]| |]] eqn:Hlearn; simpl in He2.
  - rewrite (bind_done _ _ _ _ _ Hlearn).
    exists (e1 ++ e2 ++ [TimeWait (snd (wait_budgets screen speed))]).
    unfold bind, emit, ret. simpl. split.
    + by rewrite He2, He1, <- !app_assoc.
    + rewrite !List.filter_app, !filter_no_sleep by done. reflexivity.
  - rewrite (bind_raised _ _ _ _ _ Hlearn).
    exists (e1 ++ e2). simpl. split; [by rewrite He2, He1, app_assoc|].
    rewrite List.filter_app, !filter_no_sleep by done. reflexivity.
  - rewrite (bind_out_of_fuel _ _ _ _ Hlearn).
    exists (e1 ++ e2). simpl. split; [by rewrite He2, He1, app_assoc|].
    rewrite List.filter_app, !filter_no_sleep by done. reflexivity.
Qed.

(** ** The generator bodies and the screen lock *)

Abbreviation lock_balanced_step :=
  (lock_balanced_step (State := State) (Action := Action) (Mem := Mem)).

Lemma lock_depth_app (e1 e2 : list Event) :
  lock_depth (e1 ++ e2) = lock_depth e1 + lock_depth e2.
Proof.
  induction e1 as [|e e1 IH]; simpl; [done|].
  change (lock_depth (e1 ++ e2)) with
    (foldr (fun e n => lock_delta e + n) 0 (e1 ++ e2)) in IH.
  unfold lock_depth in *. simpl. lia.
Qed.

Lemma lock_balanced_refl (w : World) : lock_balanced_step w w.
Proof. exists []. split; [by rewrite app_nil_r|done]. Qed.

Lemma lock_balanced_trans (w1 w2 w3 : World) :
  lock_balanced_step w1 w2 -> lock_balanced_step w2 w3 ->
  lock_balanced_step w1 w3.
Proof.
  intros (e1 & He1 & Hd1) (e2 & He2 & Hd2). exists (e1 ++ e2). split.
  - by rewrite He2, He1, app_assoc.
  - rewrite lock_depth_app. lia.
Qed.

Ltac lock_bind :=
  apply (steps_bind lock_balanced_step lock_balanced_trans); [|intros ?].
Tactic Notation "lock_bind" "as" simple_intropattern(x) :=
  apply (steps_bind lock_balanced_step lock_balanced_trans); [|intros x].

Lemma balanced_emit (e : Event) :
  lock_delta e = 0 -> steps lock_balanced_step (emit e).
Proof.
  intros He w. exists [e]. split; [done|]. unfold lock_depth. simpl. lia.
Qed.

Lemma balanced_ret {A} (a : A) : steps lock_balanced_step (ret a).
Proof. apply steps_ret, lock_balanced_refl. Qed.

Lemma balanced_read_screen (self : Game) :
  steps lock_balanced_step (read_screen self).
Proof.
  intros w. unfold read_screen.
  destruct (self_screen self); apply lock_balanced_refl.
Qed.

Lemma balanced_event_wait : steps lock_balanced_step (event_wait env).
Proof. intros w. eexists [_]. split; [reflexivity|done]. Qed.

Lemma balanced_event_get : steps lock_balanced_step (event_get env).
Proof. intros w. eexists [_]. split; [reflexivity|done]. Qed.

Lemma balanced_ask_yn (prompt : string) :
  steps lock_balanced_step (ask_yn env prompt).
Proof. intros w. eexists [_]. split; [reflexivity|done]. Qed.

Lemma balanced_with_screen_lock {A} (m : M A) :
  steps lock_balanced_step m -> steps lock_balanced_step (with_screen_lock m).
Proof.
  intros Hm w. unfold with_screen_lock.
  destruct (Hm (fst (emit LockAcquire w))) as (evs & Hevs & Hd).
  destruct (m (fst (emit LockAcquire w))) as [w1 r]. simpl in *.
  exists ([LockAcquire] ++ evs ++ [LockRelease]). split.
  - by rewrite Hevs, <- !app_assoc.
  - rewrite !lock_depth_app, Hd. reflexivity.
Qed.

Lemma balanced_wait_yn (fuel : nat) : steps lock_balanced_step (wait_yn env fuel).
Proof.
  induction fuel as [|n IH]; simpl.
  - apply steps_out_of_fuel, lock_balanced_refl.
  - lock_bind; [by apply balanced_emit|].
    lock_bind as ev; [apply balanced_event_wait|].
    destruct ev as [[| | |]| |]; try exact IH; apply balanced_ret.
Qed.

Lemma balanced_display_loop (fuel : nat) :
  steps lock_balanced_step (display_loop env fuel).
Proof.
  induction fuel as [|n IH]; simpl.
  - apply steps_out_of_fuel, lock_balanced_refl.
  - lock_bind as alive; [intros w; apply lock_balanced_refl|].
    destruct alive; [|apply balanced_ret].
    lock_bind.
    { apply balanced_with_screen_lock. by apply balanced_emit. }
    lock_bind; [by apply balanced_emit|].
    lock_bind as es; [apply balanced_event_get|].
    lock_bind; [|exact IH].
    destruct (existsb is_quit es); [|apply balanced_ret].
    lock_bind; [by apply balanced_emit|].
    apply steps_raise, lock_balanced_refl.
Qed.

(** X14. The bodies of [_draw_state], [_play_again] and [_run_display] never
    leave the screen lock held: however a body ends (normally, with
    [AttributeError] inside the locked block, with [SystemExit] on a quit
    event, or still running), every acquisition it made was followed by its
    release. *)
Theorem generator_bodies_release_lock (fuel : nat) (self : Game)
    (screen : option Screen) (s : State) (w : World) :
  lock_balanced_step w (fst (_draw_state_body self s w))
  /\ lock_balanced_step w (fst (_play_again_body env fuel self w))
  /\ lock_balanced_step w (fst (_run_display_body env fuel self screen w)).
Proof.
  split; [|split].
  - revert w. change (steps lock_balanced_step (_draw_state_body self s)).
    unfold _draw_state_body. destruct (display self); [|apply balanced_ret].
    lock_bind; [by apply balanced_emit|].
    apply balanced_with_screen_lock.
    lock_bind; [apply balanced_read_screen|by apply balanced_emit].
  - revert w. change (steps lock_balanced_step (_play_again_body env fuel self)).
    unfold _play_again_body.
    destruct (negb (display self)); [apply balanced_ask_yn|].
    lock_bind; [by apply balanced_emit|].
    lock_bind as scr; [apply balanced_read_screen|].
    destruct scr as [width height].
    lock_bind; [by apply balanced_emit|].
    lock_bind; [by apply balanced_emit|].
    lock_bind; [|apply balanced_wait_yn].
    apply balanced_with_screen_lock.
    lock_bind; [apply balanced_read_screen|by apply balanced_emit].
  - revert w.
    change (steps lock_balanced_step (_run_display_body env fuel self screen)).
    unfold _run_display_body.
    lock_bind; [apply balanced_display_loop|by apply balanced_emit].
Qed.

(** ** The refresh loop *)

Lemma display_loop_refreshes (k : nat) :
  forall (fuel : nat) (w : World),
    (forall j, (j < k)%nat ->
       thread_alive env (polled w + j) = true
       /\ existsb is_quit (pending env (polled w + j)) = false) ->
    thread_alive env (polled w + k) = false ->
    (k < fuel)%nat ->
    exists w',
      display_loop env fuel w = (w', Done tt)
      /\ trace w' = trace w
                    ++ concat (map (refresh_events env) (seq (polled w) k))
      /\ polled w' = (polled w + k)%nat.
Proof.
  induction k as [|k IH]; intros fuel w Hlive Hdead Hlt;
    (destruct fuel as [|n]; [lia|]); simpl.
  - rewrite Nat.add_0_r in Hdead.
    unfold bind, is_alive. simpl. rewrite Hdead.
    exists w. simpl. by rewrite app_nil_r, Nat.add_0_r.
  - destruct (Hlive 0%nat ltac:(lia)) as [Ha Hq]. rewrite Nat.add_0_r in Ha, Hq.
    unfold bind at 1. unfold is_alive at 1. cbn [fst snd]. rewrite Ha.
    unfold bind at 1. unfold with_screen_lock, emit. cbn [fst snd].
    unfold bind at 1. cbn [fst snd].
    unfold bind at 1. unfold event_get at 1. cbn [fst snd polled].
    rewrite Hq. unfold bind at 1. cbn [ret].
    match goal with |- context [display_loop env n ?w1] =>
      destruct (IH n w1) as (w' & -> & Htr & Hp)
    end.
    + simpl. intros j Hj.
      replace (S (polled w + j)) with (polled w + S j)%nat by lia.
      apply Hlive. lia.
    + simpl. by replace (S (polled w + k)) with (polled w + S k)%nat by lia.
    + lia.
    + exists w'. split; [done|]. simpl in *. split; [|lia].
      rewrite Htr. unfold refresh_events at 2. simpl.
      by rewrite <- !app_assoc.
Qed.

(** X15. The refresh loop of [_run_display]: while the game thread is alive
    and no quit event is pending, each pass presents the display under the
    lock, ticks the clock at 15 frames per second and drains the events;
    once the thread is found dead the loop ends and the body quits pygame
    and returns. *)
Theorem run_display_until_thread_ends (k fuel : nat) (self : Game)
    (screen : option Screen) (w : World) :
  (forall j, (j < k)%nat ->
     thread_alive env (polled w + j) = true
     /\ existsb is_quit (pending env (polled w + j)) = false) ->
  thread_alive env (polled w + k) = false ->
  (k < fuel)%nat ->
  exists w',
    _run_display_body env fuel self screen w = (w', Done tt)
    /\ trace w' = trace w
                  ++ concat (map (refresh_events env) (seq (polled w) k))
                  ++ [PygameQuit].
Proof.
  intros Hlive Hdead Hlt.
  destruct (display_loop_refreshes k fuel w Hlive Hdead Hlt)
    as (w1 & Hloop & Htr & _).
  unfold _run_display_body. rewrite (bind_done _ _ _ _ _ Hloop).
  eexists. split; [reflexivity|]. simpl. by rewrite Htr, <- app_assoc.
Qed.

Lemma display_loop_quits (k : nat) :
  forall (fuel : nat) (w : World),
    (forall j, (j < k)%nat ->
       thread_alive env (polled w + j) = true
       /\ existsb is_quit (pending env (polled w + j)) = false) ->
    thread_alive env (polled w + k) = true ->
    existsb is_quit (pending env (polled w + k)) = true ->
    (k < fuel)%nat ->
    exists w',
      display_loop env fuel w = (w', Raised SystemExit)
      /\ trace w' = trace w
                    ++ concat (map (refresh_events env) (seq (polled w) (S k)))
                    ++ [PygameQuit].
Proof.
  induction k as [|k IH]; intros fuel w Hlive Ha Hq Hlt;
    (destruct fuel as [|n]; [lia|]); cbn [display_loop].
  - rewrite Nat.add_0_r in Ha, Hq.
    unfold bind at 1. unfold is_alive at 1. cbn [fst snd]. rewrite Ha.
    unfold bind at 1. unfold with_screen_lock, emit. cbn [fst snd].
    unfold bind at 1. cbn [fst snd].
    unfold bind at 1. unfold event_get at 1. cbn [fst snd polled].
    rewrite Hq. unfold bind, raise. simpl.
    eexists. split; [reflexivity|]. simpl.
    by rewrite <- !app_assoc.
  - destruct (Hlive 0%nat ltac:(lia)) as [Ha0 Hq0].
    rewrite Nat.add_0_r in Ha0, Hq0.
    unfold bind at 1. unfold is_alive at 1. cbn [fst snd]. rewrite Ha0.
    unfold bind at 1. unfold with_screen_lock, emit. cbn [fst snd].
    unfold bind at 1. cbn [fst snd].
    unfold bind at 1. unfold event_get at 1. cbn [fst snd polled].
    rewrite Hq0. unfold bind at 1. cbn [ret].
    match goal with |- context [display_loop env n ?w1] =>
      destruct (IH n w1) as (w' & -> & Htr)
    end.
    + simpl. intros j Hj.
      replace (S (polled w + j)) with (polled w + S j)%nat by lia.
      apply Hlive. lia.
    + simpl. by replace (S (polled w + k)) with (polled w + S k)%nat by lia.
    + simpl. by replace (S (polled w + k)) with (polled w + S k)%nat by lia.
    + lia.
    + exists w'. split; [done|].
      rewrite Htr. cbn [trace polled]. 
      change (seq (polled w) (S (S k)))
        with (polled w :: seq (S (polled w)) (S k)).
      cbn [map concat]. unfold refresh_events at 3.
      by rewrite <- !app_assoc.
Qed.

(** X16. A quit event in the refresh loop: at the first pass whose drained
    events hold a [QUIT], the body calls [pygame.quit()] once and raises
    [SystemExit], which leaves the loop and the body (the [pygame.quit()]
    after the loop is not reached); the passes before it refresh as
    usual. *)
Theorem run_display_quit_exits (k fuel : nat) (self : Game)
    (screen : option Screen) (w : World) :
  (forall j, (j < k)%nat ->
     thread_alive env (polled w + j) = true
     /\ existsb is_quit (pending env (polled w + j)) = false) ->
  thread_alive env (polled w + k) = true ->
  existsb is_quit (pending env (polled w + k)) = true ->
  (k < fuel)%nat ->
  exists w',
    _run_display_body env fuel self screen w = (w', Raised SystemExit)
    /\ trace w' = trace w
                  ++ concat (map (refresh_events env) (seq (polled w) (S k)))
                  ++ [PygameQuit].
Proof.
  intros Hlive Ha Hq Hlt.
  destruct (display_loop_quits k fuel w Hlive Ha Hq Hlt) as (w' & Hloop & Htr).
  exists w'. split; [|exact Htr].
  unfold _run_display_body. by apply bind_raised.
Qed.

(** ** What a session collects *)

Lemma run_round_result_shape (fuel : nat) (self : Game) (speed : Z)
    (pause_on_turn : bool) (screen : option Screen) (w w' : World)
    (states : list State) :
  _run_round env fuel self speed pause_on_turn screen w = (w', Done states) ->
  NoDup states /\ linked states.
Proof.
  unfold _run_round. intros Hrun.
  apply bind_inv_done in Hrun as (w1 & ags & [= <- <-] & Hrun).
  apply bind_inv_done in Hrun as (w2 & g & [= <- _] & Hrun).
  apply bind_inv_done in Hrun as (w3 & res & Hloop & Hrun).
  apply bind_inv_done in Hrun as (w4 & [] & _ & Hrun).
  apply bind_inv_done in Hrun as (w5 & [] & _ & Hrun).
  injection Hrun as _ <-.
  apply round_loop_shape in Hloop as (Hnd & Hl & _ & _); [done| | |].
  - apply NoDup_singleton.
  - reflexivity.
  - intros i s s' _ Hs'. destruct i; discriminate Hs'.
Qed.

(** X17. [_run_game] only ever appends to the shared list: however the
    session ends (returning, failing or still running), the list holds what
    it held before followed by the trajectories of the rounds completed, and
    each of these is a chain of moves without a repeated state. *)
Theorem run_game_only_appends (fuel : nat) (self : Game)
    (screen : option Screen) (play_again : PyVal) (speed : Z)
    (pause_on_turn : bool) (w : World) :
  exists more,
    games (fst (_run_game env fuel self screen play_again speed
                  pause_on_turn w)) = games w ++ more
    /\ Forall (fun t => NoDup t /\ linked t) more.
Proof.
  revert w. induction fuel as [|n IH]; intros w; simpl.
  - exists []. split; [by rewrite app_nil_r|constructor].
  - pose proof (steps_run_round env n self speed pause_on_turn None w)
      as [Hg _].
    destruct (_run_round env n self speed pause_on_turn None w)
      as [w1 [t| |]] eqn:Hr; simpl in Hg.
    2:{ rewrite (bind_raised _ _ _ _ _ Hr). exists []. simpl.
        split; [by rewrite app_nil_r|constructor]. }
    2:{ rewrite (bind_out_of_fuel _ _ _ _ Hr). exists []. simpl.
        split; [by rewrite app_nil_r|constructor]. }
    rewrite (bind_done _ _ _ _ _ Hr).
    rewrite (bind_done _ _ _ _ _ (eq_refl : append_game t w1 = (_, Done tt))).
    destruct (break_condition_pure env n self play_again
                (fst (append_game t w1))) as [b Hb].
    rewrite (bind_done _ _ _ _ _ Hb).
    destruct b.
    + exists [t]. simpl. rewrite Hg. split; [done|].
      constructor; [by eapply run_round_result_shape|constructor].
    + destruct (IH (fst (append_game t w1))) as (more & -> & Hmore).
      exists (t :: more). simpl. rewrite Hg, <- app_assoc. split; [done|].
      constructor; [by eapply run_round_result_shape|exact Hmore].
Qed.

(** ** Rejected moves within a round *)

Lemma round_loop_turn (n : nat) (self : Game) (turn_wait : Z)
    (pause_on_turn : bool) (i : Z) (state : State) (states : list State) :
  round_loop env (S n) self turn_wait pause_on_turn i state states
  = ((if is_terminal state then ret states
      else
        j <- next_index i ;;
        r <- decide_loop env n (Z.to_nat j) state ;;
        finish_turn env n self turn_wait pause_on_turn j states (fst r)
          (snd r)) : M (list State)).
Proof. reflexivity. Qed.

Lemma decide_loop_retries (i : nat) (state : State) (k : nat) :
  forall (fuel : nat) (w : World) (ag : Agent.t State Action Mem)
         (mk m' : Mem) (a : Action) (s' : State),
    agents w !! i = Some ag ->
    after_rejections (Agent.decide ag) (Agent.memory ag) state k = Some mk ->
    Agent.decide ag mk state = inr (a, m') ->
    act state a = Some s' ->
    (k < fuel)%nat ->
    exists w',
      decide_loop env fuel i state w
        = (w', Done (s', clock env (ticks w + k)))
      /\ trace w'
         = trace w ++ rejected_attempts i state k
           ++ Decide i state
              :: (if truthy s' then []
                  else [LogInfo "Invalid action performed!"])
      /\ agents w' = <[i := Agent.set_memory ag m']> (agents w)
      /\ games w' = games w /\ polled w' = polled w /\ asked w' = asked w.
Proof.
  induction k as [|k IH]; intros fuel w ag mk m' a s' Hi Hrej Hd Ha Hlt;
    (destruct fuel as [|n]; [lia|]).
  - injection Hrej as <-. simpl.
    unfold bind, get_agent, call_decide, when, emit, set_agent, ret, raise.
    simpl. rewrite Hi. simpl. rewrite Hd. simpl. rewrite Ha. simpl.
    rewrite Nat.add_0_r.
    destruct (truthy s'); simpl; eexists; (split; [reflexivity|]); simpl;
      rewrite <- ?app_assoc; done.
  - simpl in Hrej.
    destruct (Agent.decide ag (Agent.memory ag) state) as [e|[a1 m1]] eqn:Hd1;
      [done|].
    destruct (act state a1) as [s1|] eqn:Ha1; [done|].
    destruct (decide_loop_rejected_once env n i state w ag a1 m1 Hi Hd1 Ha1)
      as (-> & _).
    pose proof (lookup_lt_Some _ _ _ Hi) as Hlen.
    destruct (IH n (after_rejection w i ag m1 state)
                (Agent.set_memory ag m1) mk m' a s')
      as (w' & Hrun & Htr & Hag & Hg & Hp & Hk); try done.
    { simpl. by apply list_lookup_insert_eq. }
    { lia. }
    exists w'. split.
    { rewrite Hrun. simpl.
      by replace (ticks w + S k)%nat with (S (ticks w + k)) by lia. }
    split.
    { rewrite Htr. simpl. unfold rejected_attempts. simpl.
      by rewrite <- !app_assoc. }
    split; [|done].
    rewrite Hag. simpl. by rewrite list_insert_insert_eq.
Qed.

Lemma decide_loop_rejects_for_ever (i : nat) (state : State) (fuel : nat) :
  forall (w : World) (ag : Agent.t State Action Mem),
    agents w !! i = Some ag ->
    (forall k, is_Some (after_rejections (Agent.decide ag) (Agent.memory ag)
                          state k)) ->
    snd (decide_loop env fuel i state w) = OutOfFuel.
Proof.
  induction fuel as [|n IH]; intros w ag Hi Hall; [reflexivity|].
  pose proof (Hall 1%nat) as [m1' H1]. simpl in H1.
  destruct (Agent.decide ag (Agent.memory ag) state) as [e|[a1 m1]] eqn:Hd1;
    [done|].
  destruct (act state a1) as [s1|] eqn:Ha1; [done|].
  destruct (decide_loop_rejected_once env n i state w ag a1 m1 Hi Hd1 Ha1)
    as (-> & _).
  pose proof (lookup_lt_Some _ _ _ Hi) as Hlen.
  apply (IH _ (Agent.set_memory ag m1)).
  - simpl. by apply list_lookup_insert_eq.
  - intros k. specialize (Hall (S k)). simpl in Hall.
    rewrite Hd1, Ha1 in Hall. exact Hall.
Qed.

(** C5. In a round, at a state that is not terminal, the agent whose turn
    it is (index [(i + 1) mod len(agents)]) is asked again for the same
    state after every rejection, and each rejection is logged.  When [k]
    proposals are rejected and the next one is accepted, the decision loop
    leaves [k] diagnostics and [k + 1] [decide] calls of that agent on that
    state, and the turn then finishes once, with the index it started with
    and the trajectory it started with (only the accepted state is offered
    for appending).  When every proposal is rejected the round neither
    returns nor raises: it is still asking when the fuel is spent. *)
Theorem rejected_moves_are_retried (self : Game) (turn_wait : Z)
    (pause_on_turn : bool) (i : Z) (state : State) (states : list State)
    (w : World) (ag : Agent.t State Action Mem) :
  is_terminal state = false ->
  agents w !! Z.to_nat ((i + 1) mod Z.of_nat (length (agents w))) = Some ag ->
  (forall (k n : nat) (mk m' : Mem) (a : Action) (s' : State),
     after_rejections (Agent.decide ag) (Agent.memory ag) state k = Some mk ->
     Agent.decide ag mk state = inr (a, m') ->
     act state a = Some s' ->
     (k < n)%nat ->
     exists w',
       round_loop env (S n) self turn_wait pause_on_turn i state states w
         = finish_turn env n self turn_wait pause_on_turn
             ((i + 1) mod Z.of_nat (length (agents w))) states s'
             (clock env (ticks w + k)) w'
       /\ trace w'
          = trace w
            ++ rejected_attempts
                 (Z.to_nat ((i + 1) mod Z.of_nat (length (agents w)))) state k
            ++ Decide (Z.to_nat ((i + 1) mod Z.of_nat (length (agents w))))
                 state
               :: (if truthy s' then []
                   else [LogInfo "Invalid action performed!"])
       /\ agents w'
          = <[Z.to_nat ((i + 1) mod Z.of_nat (length (agents w)))
              := Agent.set_memory ag m']> (agents w)
       /\ games w' = games w /\ polled w' = polled w /\ asked w' = asked w)
  /\ ((forall k, is_Some (after_rejections (Agent.decide ag) (Agent.memory ag)
                            state k)) ->
      forall n,
        snd (round_loop env n self turn_wait pause_on_turn i state states w)
        = OutOfFuel).
Proof.
  intros Hlive Hi.
  assert (Hidx : next_index i w
                 = (w, Done ((i + 1) mod Z.of_nat (length (agents w))))).
  { unfold next_index, bind, len_agents. simpl.
    destruct (agents w) as [|x l] eqn:Hags; [|reflexivity].
    simpl in Hi. destruct (Z.to_nat _); discriminate Hi. }
  split.
  - intros k n mk m' a s' Hrej Hd Ha Hlt.
    destruct (decide_loop_retries _ state k n w ag mk m' a s' Hi Hrej Hd Ha Hlt)
      as (w' & Hrun & Htr & Hag & Hrest).
    exists w'. split; [|by split].
    rewrite round_loop_turn, Hlive.
    rewrite (bind_done _ _ _ _ _ Hidx).
    by rewrite (bind_done _ _ _ _ _ Hrun).
  - intros Hall [|n]; [reflexivity|].
    rewrite round_loop_turn, Hlive.
    rewrite (bind_done _ _ _ _ _ Hidx).
    pose proof (decide_loop_rejects_for_ever _ state n w ag Hi Hall) as Hout.
    unfold bind.
    destruct (decide_loop env n
                (Z.to_nat ((i + 1) mod Z.of_nat (length (agents w)))) state w)
      as [w1 [r| |]]; simpl in Hout; [done|done|reflexivity].
Qed.

(** ** The surface and the lock *)

Abbreviation guarded_step :=
  (guarded_step (State := State) (Action := Action) (Mem := Mem)).

Lemma under_lock_app (d : Z) (e1 e2 : list Event) :
  under_lock d (e1 ++ e2)
  = under_lock d e1 && under_lock (d + lock_depth e1) e2.
Proof.
  revert d. induction e1 as [|e e1 IH]; intros d; simpl.
  - by rewrite Z.add_0_r.
  - rewrite IH, <- andb_assoc. do 3 f_equal. unfold lock_depth. simpl. lia.
Qed.

Lemma guarded_refl (w : World) : guarded_step w w.
Proof. exists []. split; [by rewrite app_nil_r|done]. Qed.

Lemma guarded_trans (w1 w2 w3 : World) :
  guarded_step w1 w2 -> guarded_step w2 w3 -> guarded_step w1 w3.
Proof.
  intros (e1 & He1 & Hu1 & Hd1) (e2 & He2 & Hu2 & Hd2).
  exists (e1 ++ e2). split; [by rewrite He2, He1, app_assoc|]. split.
  - by rewrite under_lock_app, Hu1, Hd1, Z.add_0_r, Hu2.
  - rewrite lock_depth_app. lia.
Qed.

Ltac guard_bind :=
  apply (steps_bind guarded_step guarded_trans); [|intros ?].
Tactic Notation "guard_bind" "as" simple_intropattern(x) :=
  apply (steps_bind guarded_step guarded_trans); [|intros x].

Lemma guarded_emit (e : Event) :
  surface_access e = false -> lock_delta e = 0 ->
  steps guarded_step (emit e).
Proof.
  intros Ha Hd w. exists [e]. split; [done|]. simpl. rewrite Ha.
  unfold lock_depth. simpl. split; [done|lia].
Qed.

Lemma guarded_locked_update :
  steps guarded_step (with_screen_lock (emit DisplayUpdate)).
Proof.
  intros w. exists [LockAcquire; DisplayUpdate; LockRelease].
  split; [|done]. simpl. by rewrite <- !app_assoc.
Qed.

Lemma guarded_event_get : steps guarded_step (event_get env).
Proof. intros w. eexists [_]. split; [reflexivity|done]. Qed.

Lemma guarded_display_loop (fuel : nat) :
  steps guarded_step (display_loop env fuel).
Proof.
  induction fuel as [|n IH]; simpl.
  - apply steps_out_of_fuel, guarded_refl.
  - guard_bind as alive; [intros w; apply guarded_refl|].
    destruct alive; [|apply steps_ret, guarded_refl].
    guard_bind; [apply guarded_locked_update|].
    guard_bind; [by apply guarded_emit|].
    guard_bind as es; [apply guarded_event_get|].
    guard_bind; [|exact IH].
    destruct (existsb is_quit es); [|apply steps_ret, guarded_refl].
    guard_bind; [by apply guarded_emit|].
    apply steps_raise, guarded_refl.
Qed.

Lemma run_display_body_guarded (fuel : nat) (self : Game)
    (screen : option Screen) (w : World) :
  guarded_step w (fst (_run_display_body env fuel self screen w)).
Proof.
  revert w.
  change (steps guarded_step (_run_display_body env fuel self screen)).
  unfold _run_display_body.
  guard_bind; [apply guarded_display_loop|by apply guarded_emit].
Qed.

Lemma draw_state_body_guarded (self : Game) (s : State) (w : World) :
  guarded_step w (fst (_draw_state_body self s w)).
Proof.
  unfold _draw_state_body, read_screen.
  destruct (display self); [|apply guarded_refl].
  destruct (self_screen self) as [scr|].
  - exists [StateDraw s; LockAcquire; ScreenBlit (Picture s) (PyI 0) (PyI 0);
            LockRelease].
    split; [|done]. unfold bind, emit, with_screen_lock, ret. simpl.
    by rewrite <- !app_assoc.
  - exists [StateDraw s; LockAcquire; LockRelease].
    split; [|done]. unfold bind, emit, with_screen_lock, raise. simpl.
    by rewrite <- !app_assoc.
Qed.

End RoundFacts.

(** * The further properties on the two small games *)

Lemma run_round_trajectory_shape_witness :
  head [2; 1; 0]%nat
    = Some (init (game_type (Game_init (countdown_type 2) false))
              (agents (initial_world fair_players)))
  /\ NoDup [2; 1; 0]%nat
  /\ linked [2; 1; 0]%nat.
Proof.
  apply (run_round_trajectory_shape Toy.env 10
           (Game_init (countdown_type 2) false) 2 false None
           (initial_world fair_players)
           (fst (_run_round Toy.env 10 (Game_init (countdown_type 2) false) 2
                   false None (initial_world fair_players)))).
  vm_compute. reflexivity.
Defined.

Lemma run_round_stops_for_a_reason_witness :
  exists final, last [Ping; Pong] = Some final
                /\ stopped [Ping; Pong] final.
Proof.
  apply (run_round_stops_for_a_reason Toy.env 10
           (Game_init court_type false) 2 false None
           (initial_world fair_players)
           (fst (_run_round Toy.env 10 (Game_init court_type false) 2
                   false None (initial_world fair_players)))).
  vm_compute. reflexivity.
Defined.

Lemma fair_players_cooperative :
  cooperative (initial_world (State := Court) fair_players).
Proof. repeat constructor; apply scripted_reliable; constructor. Qed.

Lemma scripted_reliable_on_stairs :
  reliable (State := Stair) (scripted []).
Proof.
  exists (fun m => m = []). split; [reflexivity|]. split.
  - intros m s -> Hlive. exists Go, []. split; [reflexivity|].
    split; [|reflexivity].
    destruct s; [apply list_elem_of_here..|discriminate Hlive].
  - intros m ss pid ->. by exists [].
Qed.

Lemma finite_game_round_ends_witness :
  exists w' states,
    _run_round Toy.env 4 (Game_init stair_type false) 2 false None
      (initial_world fair_players) = (w', Done states).
Proof.
  apply (finite_game_round_ends Toy.env).
  - intros s a Hlive Ha. destruct s; simpl in *;
      [apply list_elem_of_singleton in Ha; rewrite Ha; eauto..
      |discriminate Hlive].
  - repeat constructor; apply scripted_reliable_on_stairs.
  - discriminate.
  - vm_compute. lia.
Defined.

Lemma terminal_start_round_witness :
  exists w',
    _run_round Toy.env 1 (Game_init (countdown_type 0) false) 1 true
      (Some (DisplayScreen 672 480)) (initial_world fair_players)
      = (w', Done [0%nat])
    /\ trace w' = [Learn 0 [0%nat]; Learn 1 [0%nat]; TimeWait 100]
    /\ ticks w' = 0%nat.
Proof.
  apply (terminal_start_round Toy.env 1 (Game_init (countdown_type 0) false)
           1 true (Some (DisplayScreen 672 480))
           (initial_world fair_players)).
  - reflexivity.
  - intros [|[|pid]] Hlt; [eexists _, _; split; reflexivity..|].
    simpl in Hlt. lia.
  - lia.
Defined.

Lemma round_without_agents_witness :
  (is_terminal (init (game_type (Game_init court_type false)) []) = false ->
   _run_round Toy.env 4 (Game_init court_type false) 2 false None
     (initial_world []) = (initial_world [], Raised ZeroDivisionError))
  /\ (is_terminal (init (game_type (Game_init court_type false)) []) = true ->
      _run_round Toy.env 4 (Game_init court_type false) 2 false None
        (initial_world [])
      = (fst (emit (TimeWait (snd (wait_budgets None 2))) (initial_world [])),
         Done [init (game_type (Game_init court_type false)) []])).
Proof.
  apply (round_without_agents Toy.env 4 (Game_init court_type false) 2 false
           None (initial_world [])).
  - reflexivity.
  - lia.
Defined.

Lemma decide_exception_leaves_round_witness :
  exists w',
    _run_round Toy.env 2 (Game_init court_type false) 2 false None
      (initial_world base_players) = (w', Raised NotImplementedError)
    /\ trace w' = [Decide 0 Ping]
    /\ agents w' = base_players.
Proof.
  apply (decide_exception_leaves_round Toy.env 2 (Game_init court_type false)
           2 false None (initial_world base_players) (Agent.base [])
           NotImplementedError).
  - reflexivity.
  - reflexivity.
  - reflexivity.
  - lia.
Defined.

Lemma run_never_raises_witness :
  run Toy.env 5 (Game_init court_type false) false PyNone 2 false
    (initial_world base_players)
  = (fst (_run_game Toy.env 5 (Game_init court_type false) None PyNone 2
            false (fst (new_games (initial_world base_players)))),
     Done (games (fst (_run_game Toy.env 5 (Game_init court_type false) None
                         PyNone 2 false
                         (fst (new_games (initial_world base_players))))))).
Proof.
  apply (proj2 (run_never_raises Toy.env 5 (Game_init court_type false)
                  false PyNone 2 false (initial_world base_players))
           _ NotImplementedError).
  vm_compute. reflexivity.
Defined.

Lemma run_once_when_falsy_witness :
  run Toy.env 10 (Game_init (countdown_type 2) false) false (PyInt 0) 2
    false (initial_world fair_players)
  = (fst (append_game [2; 1; 0]%nat
            (fst (_run_round Toy.env 9 (Game_init (countdown_type 2) false) 2
                    false None
                    (fst (new_games (initial_world fair_players)))))),
     Done [[2; 1; 0]%nat]).
Proof.
  apply (run_once_when_falsy Toy.env 9 (Game_init (countdown_type 2) false)
           (PyInt 0) 2 false (initial_world fair_players)).
  - reflexivity.
  - vm_compute. reflexivity.
Defined.

Lemma integer_play_again_rounds_witness :
  snd (_run_game Toy.env 7 (Game_init (countdown_type 2) false) None
         (PyInt 1) 2 false (initial_world fair_players)) <> Done tt
  /\ _run_game Toy.env 7 (Game_init (countdown_type 2) false) None
       (PyInt 3) 2 false (initial_world fair_players)
     = (fst (append_game [2; 1; 0]%nat
               (fst (_run_round Toy.env 6
                       (Game_init (countdown_type 2) false) 2 false None
                       (initial_world fair_players)))),
        Done tt).
Proof.
  split.
  - apply (proj1 (integer_play_again_rounds Toy.env 0
                    (Game_init (countdown_type 2) false) None 1 2 false
                    (initial_world fair_players) ltac:(discriminate))).
    simpl. lia.
  - apply (proj2 (integer_play_again_rounds Toy.env 6
                    (Game_init (countdown_type 2) false) None 3 2 false
                    (initial_world fair_players) ltac:(discriminate))).
    + simpl. lia.
    + vm_compute. reflexivity.
Defined.

Lemma play_again_prompt_answer_witness :
  exists w', _play_again_body live_env 3 court_with_screen
               (initial_world fair_players) = (w', Done true)
             /\ polled w' = 3%nat.
Proof.
  apply (play_again_prompt_answer live_env 3 2 court_with_screen
           (DisplayScreen 672 480) (initial_world fair_players) true).
  - reflexivity.
  - reflexivity.
  - intros [|[|j]] Hj; [reflexivity..|lia].
  - reflexivity.
  - lia.
Defined.

Lemma pause_loop_waits_for_space_witness :
  exists w', pause_loop Toy.env 2 late_world = (w', Done tt)
             /\ polled w' = 3%nat
             /\ agents w' = agents late_world /\ games w' = games late_world
             /\ ticks w' = ticks late_world /\ asked w' = asked late_world.
Proof.
  apply (pause_loop_waits_for_space Toy.env 1 2 late_world).
  - intros [|j] Hj; [reflexivity|lia].
  - reflexivity.
  - lia.
Defined.

Lemma headless_round_never_sleeps_witness :
  exists evs,
    trace (fst (_run_round Toy.env 10 (Game_init (countdown_type 2) false) 0
                  false (Some (DisplayScreen 672 480))
                  (initial_world fair_players)))
      = trace (initial_world fair_players) ++ evs
    /\ List.filter is_time_wait evs
       = match snd (_run_round Toy.env 10
                      (Game_init (countdown_type 2) false) 0 false
                      (Some (DisplayScreen 672 480))
                      (initial_world fair_players)) with
         | Done _ => [TimeWait (snd (wait_budgets
                                       (Some (DisplayScreen 672 480)) 0))]
         | _ => []
         end.
Proof.
  apply (headless_round_never_sleeps Toy.env 10
           (Game_init (countdown_type 2) false) 0 false
           (Some (DisplayScreen 672 480)) (initial_world fair_players)).
  reflexivity.
Defined.

Lemma run_display_until_thread_ends_witness :
  exists w',
    _run_display_body live_env 3 court_with_screen None
      (initial_world fair_players) = (w', Done tt)
    /\ trace w' = trace (initial_world fair_players)
                  ++ concat (map (refresh_events live_env) (seq 0 2))
                  ++ [PygameQuit].
Proof.
  apply (run_display_until_thread_ends live_env 2 3 court_with_screen None
           (initial_world fair_players)).
  - intros [|[|j]] Hj; [split; reflexivity..|lia].
  - reflexivity.
  - lia.
Defined.

Lemma run_display_quit_exits_witness :
  exists w',
    _run_display_body quit_env 2 court_with_screen None
      (initial_world fair_players) = (w', Raised SystemExit)
    /\ trace w' = trace (initial_world fair_players)
                  ++ concat (map (refresh_events quit_env) (seq 0 2))
                  ++ [PygameQuit].
Proof.
  apply (run_display_quit_exits quit_env 1 2 court_with_screen None
           (initial_world fair_players)).
  - intros [|j] Hj; [split; reflexivity|lia].
  - reflexivity.
  - reflexivity.
  - lia.
Defined.

Lemma rejected_moves_are_retried_witness :
  exists w',
    round_loop Toy.env 3 (Game_init court_type false) 0 false (-1) Ping
      [Ping] (initial_world clumsy_players)
      = finish_turn Toy.env 2 (Game_init court_type false) 0 false 0 [Ping]
          Pong (clock Toy.env 1) w'
    /\ trace w'
       = [Decide 0 Ping; LogInfo "Invalid action performed!"; Decide 0 Ping]
    /\ agents w' = <[0%nat := Agent.set_memory (scripted [Bad]) []]>
                     clumsy_players
    /\ games w' = [] /\ polled w' = 0%nat /\ asked w' = 0%nat.
Proof.
  destruct (rejected_moves_are_retried Toy.env
              (Game_init court_type false) 0 false (-1) Ping [Ping]
              (initial_world clumsy_players) (scripted [Bad]))
    as [Hretry _].
  - reflexivity.
  - reflexivity.
  - apply (Hretry 1%nat 2%nat [] [] Go Pong).
    + reflexivity.
    + reflexivity.
    + reflexivity.
    + lia.
Defined.

